(** * VncServer: connection bookkeeping and frame capture

    A shallow embedding of [src/VncServer.cpp] (VncEGLFS).  The member
    functions of [VncServer], of the local [ClientThread] and of the local
    [TcpServer] are written as actions of a small state-and-failure monad
    over a [World]: the members of the server object, the part of the Qt
    run time the code talks to (thread objects on the heap, the signal
    connection of [frameSwapped], the listening socket), and the trace of
    the calls made into Qt, in program order.

    Layout: Qt values and the thread object; the server, its member
    functions, and what can happen to it ([Op], [run]); the vocabulary of
    the specification, with the statement-by-statement view of capture and
    read; a concrete producer; the proofs; the theorems at work on the
    concrete producer and the scenarios of the specification. *)

From stdpp Require Import base option list gmap.
From Stdlib Require Import ZArith.

Open Scope Z_scope.

(** ** Qt values *)

Definition qintptr := Z.

(** Address of a heap-allocated [QThread] object. *)
Definition addr := positive.

Record QSize := mkQSize { wd : Z; ht : Z }.

#[global] Instance QSize_eq_dec : EqDecision QSize.
Proof. solve_decision. Defined.

(** [qreal] and Qt's [operator*(QSize, qreal)] are floating point; the
    development is generic in both. *)
Class DevicePixels := {
  qreal : Type;
  QSize_times : QSize → qreal → QSize
}.

Inductive Format :=
| Format_Invalid
| Format_RGB32
| Format_ARGB32_Premultiplied
| Format_RGBX8888.

#[global] Instance Format_eq_dec : EqDecision Format.
Proof. solve_decision. Defined.

(** Pixel contents, kept symbolic: where the bytes of an image come from. *)
Inductive PixelData :=
| NoData                                   (* a null image *)
| Uninitialized                            (* QImage( size, format ) *)
| Grabbed (frame : nat)                    (* read from the GL framebuffer *)
| Converted (fmt : Format) (d : PixelData) (* after convertTo( fmt ) *).

Record QImage := mkQImage {
  img_size : QSize;
  img_format : Format;
  img_data : PixelData
}.

(** [QImage()] *)
Definition QImage_null : QImage := mkQImage (mkQSize 0 0) Format_Invalid NoData.

(** [QImage( size, format )] *)
Definition QImage_new (size : QSize) (format : Format) : QImage :=
  mkQImage size format Uninitialized.

(** [QImage::convertTo( format )]: nothing to do for an invalid target or
    when the image has the format already. *)
Definition convertTo (format : Format) (img : QImage) : QImage :=
  if decide (format = Format_Invalid) then img
  else if decide (img_format img = format) then img
  else mkQImage (img_size img) format (Converted format (img_data img)).

Inductive CursorShape := ArrowCursor | WaitCursor | BitmapCursor.

Record VncCursor := mkVncCursor { cursor_shape : CursorShape }.

(** [createCursor( shape )] *)
Definition createCursor (shape : CursorShape) : VncCursor := mkVncCursor shape.

Inductive ConnectionType := AutoConnection | DirectConnection | QueuedConnection.

#[global] Instance ConnectionType_eq_dec : EqDecision ConnectionType.
Proof. solve_decision. Defined.

(** Identity of one signal-slot connection; a [QMetaObject::Connection]
    handle is [None] when null or when its connection is gone. *)
Definition ConnId := nat.

(** What [sender()] can point to. *)
Inductive QObjectRef :=
| ObjTcpServer
| ObjThread (p : addr)
| ObjOther.

Definition qobject_cast_QThread (sender : option QObjectRef) : option addr :=
  match sender with
  | Some (ObjThread p) => Some p
  | _ => None
  end.

Definition qobject_cast_QTcpServer (sender : option QObjectRef) : bool :=
  match sender with
  | Some ObjTcpServer => true
  | _ => false
  end.

(** ** ClientThread *)

(** Modelled from the spec: [VncClient.h] is not among the sources.  The
    handler is the external collaborator that speaks the protocol for one
    connection; all that matters here is which socket it stands for:
    [VncClient client( m_socketDescriptor, server )]. *)
Record VncClient := mkVncClient { client_socket : qintptr }.

(** Where [ClientThread::run] stands; [L n] is "about to execute line n". *)
Inductive RunPc :=
| NotStarted
| L97     (* construct client, connect disconnected -> quit *)
| L100    (* m_client = &client *)
| L101    (* QThread::run(), the event loop *)
| L102    (* m_client = nullptr *)
| L103    (* leave run(): client is destroyed *)
| Done.

#[global] Instance RunPc_eq_dec : EqDecision RunPc.
Proof. solve_decision. Defined.

Record ClientThread := mkClientThread {
  m_socketDescriptor : qintptr;
  m_client : option VncClient;      (* VncClient* m_client = nullptr *)
  client : option VncClient;        (* the local object of run(), while it lives *)
  pc : RunPc;
  quit_requested : bool;            (* QThread::quit() was called *)
  finished_to_removeClient : bool   (* finished() is connected to removeClient() *)
}.

(** One statement of [ClientThread::run]. *)
Definition run_step (t : ClientThread) : ClientThread :=
  match pc t with
  | NotStarted => t
  | L97 =>
      mkClientThread (m_socketDescriptor t) (m_client t)
        (Some (mkVncClient (m_socketDescriptor t))) L100
        (quit_requested t) (finished_to_removeClient t)
  | L100 =>
      mkClientThread (m_socketDescriptor t) (client t) (client t) L101
        (quit_requested t) (finished_to_removeClient t)
  | L101 =>
      (* the event loop returns once quit() has been called *)
      if quit_requested t then
        mkClientThread (m_socketDescriptor t) (m_client t) (client t) L102
          (quit_requested t) (finished_to_removeClient t)
      else t
  | L102 =>
      mkClientThread (m_socketDescriptor t) None (client t) L103
        (quit_requested t) (finished_to_removeClient t)
  | L103 =>
      mkClientThread (m_socketDescriptor t) (m_client t) None Done
        (quit_requested t) (finished_to_removeClient t)
  | Done => t
  end.

(** The thread object [new ClientThread( fd, server )] builds. *)
Definition ClientThread_new (fd : qintptr) : ClientThread :=
  mkClientThread fd None None NotStarted false false.

(** [thread->start()] on the thread object *)
Definition started (t : ClientThread) : ClientThread :=
  mkClientThread (m_socketDescriptor t) (m_client t) (client t)
    (if decide (pc t = NotStarted) then L97 else pc t)
    (quit_requested t) (finished_to_removeClient t).

(** [connect( thread, &QThread::finished, server, &VncServer::removeClient )]
    on the thread object *)
Definition finished_connected (t : ClientThread) : ClientThread :=
  mkClientThread (m_socketDescriptor t) (m_client t) (client t) (pc t)
    (quit_requested t) true.

(** [thread->quit()] on the thread object *)
Definition quit (t : ClientThread) : ClientThread :=
  mkClientThread (m_socketDescriptor t) (m_client t) (client t) (pc t)
    true (finished_to_removeClient t).

(** ** The producer *)

Section VncServer.
Context `{DevicePixels}.

Record QWindow := mkQWindow {
  inherits_QQuickWindow : bool;
  win_size : QSize;
  devicePixelRatio : qreal;
  gl_frame : nat;           (* which frame the GL framebuffer holds *)
  gl_format : Format        (* format qt_gl_read_framebuffer delivers *)
}.

(** A [QWindow*]: null, or the application's window. *)
Inductive QWindowRef := TheWindow.

(** ** The server object, the run time, the trace *)

(** Modelled from the spec: the class declaration in [VncServer.h] is not
    among the sources.  The members are the ones the member functions
    use, with the types their uses call for: the producer reference, the
    cursor, the connection set (a list: [+=], [removeOne], [isEmpty],
    [count]), the subscription handle, the frame buffer and its mutex. *)
Record VncServer := mkVncServer {
  m_window : option QWindowRef;
  m_cursor : VncCursor;
  m_threads : list addr;
  m_grabConnectionId : option ConnId;
  m_frameBuffer : QImage;
  m_frameBufferMutex : bool           (* held? *)
}.

Record QtEnv := mkQtEnv {
  app_window : QWindow;
  heap : gmap addr ClientThread;          (* live ClientThread objects *)
  frameSwapped_slots : list (ConnId * ConnectionType);
                                          (* frameSwapped() -> updateFrameBuffer() *)
  next_connection : ConnId;
  listening : option Z                    (* the TcpServer's port, when listening *)
}.

Inductive LogLine :=
| LogCreated (port : Z)
| LogAttached (port : Z) (clients : nat)
| LogDetached (clients : nat).

Inductive Event :=
| EvListen (port : Z) (ok : bool)
| EvInfo (line : LogLine)
| EvNew (p : addr) (fd : qintptr)
| EvConnectFrameSwapped (id : ConnId) (ty : ConnectionType)
| EvDisconnect (id : ConnId)
| EvInvokeUpdate
| EvConnectFinished (p : addr)
| EvStart (p : addr)
| EvQuit (p : addr)
| EvWait (p : addr) (ms : Z)
| EvDelete (p : addr)
| EvLock
| EvUnlock
| EvAllocImage (size : QSize) (format : Format)
| EvReadFramebuffer (size : QSize) (frame : nat)
| EvConvertTo (format : Format)
| EvMarkDirty (p : addr)
| EvClientMarkDirty (p : addr) (c : VncClient).

Record World := mkWorld {
  server : VncServer;
  qt : QtEnv;
  trace : list Event
}.

(** ** The monad *)

Definition M (A : Type) : Type := World → option (A * World).

#[global] Instance M_ret : MRet M := λ A a w, Some (a, w).
#[global] Instance M_bind : MBind M := λ A B f m w,
  match m w with
  | Some (a, w') => f a w'
  | None => None
  end.

Definition gets {A} (f : World → A) : M A := λ w, Some (f w, w).
Definition modify (f : World → World) : M unit := λ w, Some (tt, f w).
Definition crash {A} : M A := λ _, None.

Definition when (b : bool) (m : M unit) : M unit := if b then m else mret tt.

Fixpoint for_each {A} (l : list A) (body : A → M unit) : M unit :=
  match l with
  | [] => mret tt
  | x :: l' => body x;; for_each l' body
  end.

(** The world an action leaves behind. *)
Definition exec {A} (m : M A) (w : World) : option World := snd <$> m w.

Definition emit (e : Event) : M unit :=
  modify (λ w, mkWorld (server w) (qt w) (trace w ++ [e])).

Definition upd_server (f : VncServer → VncServer) : M unit :=
  modify (λ w, mkWorld (f (server w)) (qt w) (trace w)).

Definition upd_qt (f : QtEnv → QtEnv) : M unit :=
  modify (λ w, mkWorld (server w) (f (qt w)) (trace w)).

Definition set_threads (l : list addr) (s : VncServer) : VncServer :=
  mkVncServer (m_window s) (m_cursor s) l (m_grabConnectionId s)
    (m_frameBuffer s) (m_frameBufferMutex s).

Definition set_grabConnectionId (g : option ConnId) (s : VncServer) : VncServer :=
  mkVncServer (m_window s) (m_cursor s) (m_threads s) g
    (m_frameBuffer s) (m_frameBufferMutex s).

Definition set_frameBuffer (img : QImage) (s : VncServer) : VncServer :=
  mkVncServer (m_window s) (m_cursor s) (m_threads s) (m_grabConnectionId s)
    img (m_frameBufferMutex s).

Definition set_mutex (b : bool) (s : VncServer) : VncServer :=
  mkVncServer (m_window s) (m_cursor s) (m_threads s) (m_grabConnectionId s)
    (m_frameBuffer s) b.

Definition set_window (win : QWindow) (e : QtEnv) : QtEnv :=
  mkQtEnv win (heap e) (frameSwapped_slots e) (next_connection e) (listening e).

Definition set_heap (h : gmap addr ClientThread) (e : QtEnv) : QtEnv :=
  mkQtEnv (app_window e) h (frameSwapped_slots e) (next_connection e) (listening e).

Definition set_slots (l : list (ConnId * ConnectionType)) (n : ConnId)
    (e : QtEnv) : QtEnv :=
  mkQtEnv (app_window e) (heap e) l n (listening e).

Definition alter_thread (f : ClientThread → ClientThread) (p : addr) : M unit :=
  upd_qt (λ e, set_heap (alter f p (heap e)) e).

Definition non_null {A} (ptr : option A) : bool :=
  match ptr with Some _ => true | None => false end.

(** ** Calls into Qt *)

(** [Q_ASSERT] states what the caller owes; a violated assertion aborts. *)
Definition Q_ASSERT (b : bool) : M unit := if b then mret tt else crash.

Definition qInfo (line : LogLine) : M unit := emit (EvInfo line).

(** [QTcpServer::listen( QHostAddress::Any, port )]; whether the port can
    be bound is the environment's choice [ok]. *)
Definition TcpServer_listen (port : Z) (ok : bool) : M bool :=
  upd_qt (λ e, mkQtEnv (app_window e) (heap e) (frameSwapped_slots e)
                 (next_connection e) (if ok then Some port else None));;
  emit (EvListen port ok);;
  mret ok.

(** [QTcpServer::serverPort()] *)
Definition serverPort : M Z := gets (λ w, default 0 (listening (qt w))).

(** [new ClientThread( fd, this )]: an address that is not live. *)
Definition new_ClientThread (fd : qintptr) : M addr := λ w,
  let p := fresh (dom (heap (qt w))) in
  (upd_qt (λ e, set_heap (<[p := ClientThread_new fd]> (heap e)) e);;
   emit (EvNew p fd);;
   mret p) w.

(** [delete thread] *)
Definition delete_thread (p : addr) : M unit :=
  upd_qt (λ e, set_heap (delete p (heap e)) e);;
  emit (EvDelete p).

(** [QObject::connect( m_window, SIGNAL(frameSwapped()), this,
    SLOT(updateFrameBuffer()), ty )]; the window is a [QQuickWindow] (the
    constructor asserts it), so the signal exists and the connection is
    made. *)
Definition QObject_connect_frameSwapped (ty : ConnectionType) : M ConnId :=
  id ← gets (λ w, next_connection (qt w));
  upd_qt (λ e, set_slots (frameSwapped_slots e ++ [(id, ty)]) (S id) e);;
  emit (EvConnectFrameSwapped id ty);;
  mret id.

(** [QObject::disconnect( m_grabConnectionId )]: the connection leaves the
    signal's table and the handle passed in becomes null. *)
Definition QObject_disconnect_grabConnection : M unit :=
  g ← gets (λ w, m_grabConnectionId (server w));
  match g with
  | Some id =>
      upd_qt (λ e, set_slots (filter (λ c, c.1 ≠ id) (frameSwapped_slots e))
                     (next_connection e) e);;
      upd_server (set_grabConnectionId None);;
      emit (EvDisconnect id)
  | None => mret tt
  end.

(** [QMetaObject::invokeMethod( m_window, "update" )] *)
Definition QMetaObject_invokeMethod_update : M unit := emit EvInvokeUpdate.

(** [connect( thread, &QThread::finished, this, &VncServer::removeClient )] *)
Definition connect_finished (p : addr) : M unit :=
  alter_thread finished_connected p;;
  emit (EvConnectFinished p).

(** [thread->start()] *)
Definition QThread_start (p : addr) : M unit :=
  alter_thread started p;;
  emit (EvStart p).

(** [thread->quit()] *)
Definition QThread_quit (p : addr) : M unit :=
  alter_thread quit p;;
  emit (EvQuit p).

(** [thread->wait( ms )] *)
Definition QThread_wait (p : addr) (ms : Z) : M unit := emit (EvWait p ms).

(** [QMutexLocker locker( &m_frameBufferMutex )]: with the mutex held the
    caller waits; alone, for ever. *)
Definition wait_while (held : bool) : M unit := if held then crash else mret tt.

Definition QMutex_lock : M unit :=
  held ← gets (λ w, m_frameBufferMutex (server w));
  wait_while held;;
  upd_server (set_mutex true);;
  emit EvLock.

Definition QMutex_unlock : M unit :=
  upd_server (set_mutex false);; emit EvUnlock.

(** [qt_gl_read_framebuffer( size, false, false )] *)
Definition qt_gl_read_framebuffer (size : QSize) : M QImage :=
  win ← gets (λ w, app_window (qt w));
  emit (EvReadFramebuffer size (gl_frame win));;
  mret (mkQImage size (gl_format win) (Grabbed (gl_frame win))).

(** ** ClientThread *)

(** [ClientThread::markDirty] on the thread object *)
Definition ClientThread_markDirty (p : addr) (t : ClientThread) : M unit :=
  match m_client t with
  | Some c => emit (EvClientMarkDirty p c)
  | None => mret tt
  end.

(** ** VncServer *)

Definition VncServer_init (window : option QWindowRef) : VncServer :=
  mkVncServer window (createCursor ArrowCursor) [] None QImage_null false.

(** [VncServer::VncServer( port, window )]; [connectionRequested] of the
    new [TcpServer] is connected to [addClient], see [incomingConnection]
    below. *)
Definition VncServer_ctor (port : Z) (window : option QWindowRef)
    (listen_ok : bool) : M unit :=
  upd_server (λ _, VncServer_init window);;
  win ← gets (λ w, app_window (qt w));
  Q_ASSERT (non_null window && inherits_QQuickWindow win);;
  ok ← TcpServer_listen port listen_ok;
  when ok (qInfo (LogCreated port)).

(** [VncServer::~VncServer()]; the object is gone afterwards, no slot of
    it runs any more. *)
Definition VncServer_dtor : M unit :=
  upd_server (λ s, mkVncServer None (m_cursor s) (m_threads s)
                     (m_grabConnectionId s) (m_frameBuffer s)
                     (m_frameBufferMutex s));;
  threads ← gets (λ w, m_threads (server w));
  for_each threads (λ thread, QThread_quit thread;; QThread_wait thread 20).

(** [VncServer::addClient( fd )] *)
Definition addClient (fd : qintptr) (sender : option QObjectRef) : M unit :=
  thread ← new_ClientThread fd;
  upd_server (λ s, set_threads (m_threads s ++ [thread]) s);;
  win ← gets (λ w, m_window (server w));
  g ← gets (λ w, m_grabConnectionId (server w));
  when (non_null win && negb (non_null g))
    (id ← QObject_connect_frameSwapped DirectConnection;
     upd_server (set_grabConnectionId (Some id));;
     QMetaObject_invokeMethod_update);;
  when (qobject_cast_QTcpServer sender)
    (port ← serverPort;
     n ← gets (λ w, length (m_threads (server w)));
     qInfo (LogAttached port n));;
  connect_finished thread;;
  QThread_start thread.

(** [QList::removeOne] *)
Fixpoint removeOne (x : addr) (l : list addr) : list addr :=
  match l with
  | [] => []
  | y :: l' => if decide (y = x) then l' else y :: removeOne x l'
  end.

(** [VncServer::removeClient()] *)
Definition removeClient (sender : option QObjectRef) : M unit :=
  match qobject_cast_QThread sender with
  | Some thread =>
      upd_server (λ s, set_threads (removeOne thread (m_threads s)) s);;
      threads ← gets (λ w, m_threads (server w));
      g ← gets (λ w, m_grabConnectionId (server w));
      when (bool_decide (threads = []) && non_null g)
        QObject_disconnect_grabConnection;;
      QThread_quit thread;;
      QThread_wait thread 100;;
      delete_thread thread;;
      n ← gets (λ w, length (m_threads (server w)));
      qInfo (LogDetached n)
  | None => mret tt
  end.

(** [grabWindow( m_frameBuffer )] *)
Definition grabWindow : M unit :=
  fb ← gets (λ w, m_frameBuffer (server w));
  let format := img_format fb in
  img ← qt_gl_read_framebuffer (img_size fb);
  upd_server (set_frameBuffer img);;
  upd_server (λ s, set_frameBuffer (convertTo format (m_frameBuffer s)) s);;
  emit (EvConvertTo format).

(** [static_cast< ClientThread* >( thread )->markDirty()] *)
Definition markDirty (p : addr) : M unit :=
  emit (EvMarkDirty p);;
  o ← gets (λ w, heap (qt w) !! p);
  match o with
  | Some t => ClientThread_markDirty p t
  | None => crash
  end.

(** [VncServer::updateFrameBuffer()] *)
Definition updateFrameBuffer : M unit :=
  QMutex_lock;;
  ptr ← gets (λ w, m_window (server w));
  match ptr with
  | None => crash
  | Some TheWindow =>
      win ← gets (λ w, app_window (qt w));
      let size := QSize_times (win_size win) (devicePixelRatio win) in
      fb ← gets (λ w, m_frameBuffer (server w));
      when (bool_decide (size ≠ img_size fb))
        (upd_server (set_frameBuffer (QImage_new size Format_RGB32));;
         emit (EvAllocImage size Format_RGB32));;
      grabWindow;;
      QMutex_unlock;;
      threads ← gets (λ w, m_threads (server w));
      for_each threads markDirty
  end.

(** [VncServer::frameBuffer()] *)
Definition frameBuffer : M QImage :=
  QMutex_lock;;
  fb ← gets (λ w, m_frameBuffer (server w));
  QMutex_unlock;;
  mret fb.

(** [VncServer::cursor()] *)
Definition cursor : M VncCursor := gets (λ w, m_cursor (server w)).

(** ** What can happen to a server *)

Inductive Op :=
| AddClient (fd : qintptr) (sender : option QObjectRef)
      (* the slot addClient( fd ) is invoked *)
| RemoveClient (sender : option QObjectRef)
      (* the slot removeClient() is invoked *)
| UpdateFrameBuffer
      (* the slot updateFrameBuffer() is invoked *)
| FrameBuffer
      (* somebody calls frameBuffer() *)
| IncomingConnection (fd : qintptr)
      (* TcpServer::incomingConnection: emits connectionRequested( fd ) *)
| ThreadRuns (p : addr)
      (* thread p executes the next statement of run() *)
| ThreadFinished (p : addr)
      (* finished() of thread p is delivered *)
| ClientDisconnected (p : addr)
      (* the client of thread p emits disconnected() *)
| FrameSwapped
      (* the window emits frameSwapped() *)
| WindowResized (size : QSize) (ratio : qreal)
| FrameRendered.

(** [TcpServer::incomingConnection]; only a listening server is called. *)
Definition incomingConnection (fd : qintptr) : M unit :=
  l ← gets (λ w, listening (qt w));
  when (non_null l) (addClient fd (Some ObjTcpServer)).

(** Delivery of [QThread::finished] to the slot connected in [addClient]. *)
Definition thread_finished (p : addr) : M unit :=
  o ← gets (λ w, heap (qt w) !! p);
  match o with
  | Some t =>
      when (bool_decide (pc t = Done) && finished_to_removeClient t)
        (removeClient (Some (ObjThread p)))
  | None => mret tt
  end.

(** [connect( &client, &VncClient::disconnected, this, &QThread::quit )] *)
Definition client_disconnected (t : ClientThread) : ClientThread :=
  if non_null (client t) then quit t else t.

(** Emission of [frameSwapped]: direct connections are called on the spot. *)
Definition emit_frameSwapped : M unit :=
  slots ← gets (λ w, frameSwapped_slots (qt w));
  for_each slots (λ c,
    match c.2 with
    | DirectConnection => updateFrameBuffer
    | _ => mret tt
    end).

Definition resized (size : QSize) (ratio : qreal) (win : QWindow) : QWindow :=
  mkQWindow (inherits_QQuickWindow win) size ratio (gl_frame win) (gl_format win).

Definition rendered (win : QWindow) : QWindow :=
  mkQWindow (inherits_QQuickWindow win) (win_size win) (devicePixelRatio win)
    (S (gl_frame win)) (gl_format win).

Definition step (op : Op) : M unit :=
  match op with
  | AddClient fd sender => addClient fd sender
  | RemoveClient sender => removeClient sender
  | UpdateFrameBuffer => updateFrameBuffer
  | FrameBuffer => frameBuffer;; mret tt
  | IncomingConnection fd => incomingConnection fd
  | ThreadRuns p => alter_thread run_step p
  | ThreadFinished p => thread_finished p
  | ClientDisconnected p => alter_thread client_disconnected p
  | FrameSwapped => emit_frameSwapped
  | WindowResized size ratio =>
      upd_qt (λ e, set_window (resized size ratio (app_window e)) e)
  | FrameRendered => upd_qt (λ e, set_window (rendered (app_window e)) e)
  end.

Definition run (ops : list Op) : M unit := for_each ops step.

(** The world before the constructor runs: the application's window
    exists, nothing else does. *)
Definition boot (win : QWindow) : World :=
  mkWorld (VncServer_init None) (mkQtEnv win ∅ [] 0%nat None) [].

(** [new VncServer( port, window )] *)
Definition construct (port : Z) (window : option QWindowRef) (win : QWindow)
    (listen_ok : bool) : option World :=
  exec (VncServer_ctor port window listen_ok) (boot win).

(** The render-complete subscription: a connection of [frameSwapped] to
    [updateFrameBuffer] exists. *)
Definition subscribed (w : World) : bool :=
  bool_decide (frameSwapped_slots (qt w) ≠ []).

(** ** Vocabulary of the specification *)

(** What the loop of [updateFrameBuffer] leaves in the trace for thread
    [p]: the call, and the forwarded call when [m_client] is set. *)
Definition dirty_events (hp : gmap addr ClientThread) (p : addr) : list Event :=
  EvMarkDirty p ::
  match hp !! p with
  | Some t => match m_client t with
              | Some c => [EvClientMarkDirty p c]
              | None => []
              end
  | None => []
  end.

(** What happens to a thread object between [new] and [delete]. *)
Inductive ThreadOp := TConnectFinished | TStart | TRuns | TQuit | TDisconnected.

Definition thread_step (t : ClientThread) (o : ThreadOp) : ClientThread :=
  match o with
  | TConnectFinished => finished_connected t
  | TStart => started t
  | TRuns => run_step t
  | TQuit => quit t
  | TDisconnected => client_disconnected t
  end.

(** The thread object [new ClientThread( fd, server )] after [ops]. *)
Definition thread_after (fd : qintptr) (ops : list ThreadOp) : ClientThread :=
  foldl thread_step (ClientThread_new fd) ops.

(** [m_client] and the local [client] of [run], by program point. *)
Definition thread_ok (t : ClientThread) : Prop :=
  let c := mkVncClient (m_socketDescriptor t) in
  match pc t with
  | NotStarted | L97 | Done => m_client t = None ∧ client t = None
  | L100 | L103 => m_client t = None ∧ client t = Some c
  | L101 | L102 => m_client t = Some c ∧ client t = Some c
  end.

(** What holds of a server between two slot invocations. *)
Record Inv (w : World) : Prop := {
  inv_window : m_window (server w) = Some TheWindow;
  inv_nodup : NoDup (m_threads (server w));
  inv_live : ∀ p, p ∈ m_threads (server w) → is_Some (heap (qt w) !! p);
  inv_threads : ∀ p t, heap (qt w) !! p = Some t →
    ∃ fd ops, t = thread_after fd ops;
  inv_subscription :
    match m_grabConnectionId (server w) with
    | Some id => frameSwapped_slots (qt w) = [(id, DirectConnection)]
                 ∧ m_threads (server w) ≠ []
    | None => frameSwapped_slots (qt w) = [] ∧ m_threads (server w) = []
    end;
  inv_mutex : m_frameBufferMutex (server w) = false
}.

(** The worlds a constructed server can be in. *)
Definition reachable (w : World) : Prop :=
  ∃ port window win listen_ok w0 ops,
    construct port window win listen_ok = Some w0 ∧ exec (run ops) w0 = Some w.

(** Thread [p] runs from start to end: it builds its client, enters the
    event loop, the client disconnects, [run] returns, [finished] is
    delivered. *)
Definition finishing (p : addr) : list Op :=
  [ThreadRuns p; ThreadRuns p; ClientDisconnected p;
   ThreadRuns p; ThreadRuns p; ThreadRuns p; ThreadFinished p].

(** The frame the pixels of an image were read from. *)
Fixpoint pixel_source (d : PixelData) : option nat :=
  match d with
  | Grabbed frame => Some frame
  | Converted _ d' => pixel_source d'
  | NoData | Uninitialized => None
  end.

(** The threads [markDirty] was called on, in order. *)
Definition notified (evs : list Event) : list addr :=
  omap (λ e, match e with EvMarkDirty p => Some p | _ => None end) evs.

Definition is_notification (e : Event) : bool :=
  match e with
  | EvMarkDirty _ | EvClientMarkDirty _ _ => true
  | _ => false
  end.

(** Events of the constructor: a [listen], the readiness line. *)
Definition is_startup (e : Event) : bool :=
  match e with
  | EvListen _ _ | EvInfo (LogCreated _) => true
  | _ => false
  end.

(** An action that leaves the listening socket alone and emits no
    constructor event. *)
Definition quiet {A} (m : M A) : Prop :=
  ∀ w a w', m w = Some (a, w') →
    listening (qt w') = listening (qt w)
    ∧ ∃ evs, trace w' = trace w ++ evs ∧ Forall (λ e, is_startup e = false) evs.

(** What the network, the threads and the producer do by themselves, as
    opposed to somebody invoking a slot or [frameBuffer] directly. *)
Definition external (op : Op) : bool :=
  match op with
  | AddClient _ _ | RemoveClient _ | UpdateFrameBuffer | FrameBuffer => false
  | _ => true
  end.

(** No thread object, no subscription, no listening socket. *)
Definition dormant (w : World) : Prop :=
  heap (qt w) = ∅ ∧ frameSwapped_slots (qt w) = [] ∧ listening (qt w) = None.

(** Sequences of [addClient] and [removeClient] invocations. *)
Inductive ConnOp :=
| Add (fd : qintptr) (sender : option QObjectRef)
| Remove (sender : option QObjectRef).

Definition conn_op (c : ConnOp) : Op :=
  match c with
  | Add fd sender => AddClient fd sender
  | Remove sender => RemoveClient sender
  end.

Definition is_add (c : ConnOp) : bool :=
  match c with Add _ _ => true | Remove _ => false end.

Definition count_adds (ops : list ConnOp) : nat :=
  length (filter (λ c, is_add c = true) ops).

(** A [removeClient] whose sender is a thread of the set. *)
Definition matches (c : ConnOp) (w : World) : bool :=
  match c with
  | Remove sender =>
      match qobject_cast_QThread sender with
      | Some p => bool_decide (p ∈ m_threads (server w))
      | None => false
      end
  | Add _ _ => false
  end.

Fixpoint count_matched (ops : list ConnOp) (w : World) : nat :=
  match ops with
  | [] => 0
  | c :: ops' =>
      (if matches c w then 1 else 0)
      + match exec (step (conn_op c)) w with
        | Some w' => count_matched ops' w'
        | None => 0
        end
  end%nat.

(** The thread an [addClient] creates when it runs after [pre]. *)
Definition created (pre : list ConnOp) (w0 : World) : option addr :=
  match exec (run (conn_op <$> pre)) w0 with
  | Some w => Some (fresh (dom (heap (qt w))))
  | None => None
  end.

(** Every thread added in [ops] is the sender of a later [removeClient]. *)
Definition all_removed (ops : list ConnOp) (w0 : World) : Prop :=
  ∀ pre fd sender post p,
    ops = pre ++ Add fd sender :: post →
    created pre w0 = Some p →
    Remove (Some (ObjThread p)) ∈ post.

(** ** Capture and read, statement by statement

    [updateFrameBuffer] runs on the render thread and [frameBuffer] on the
    client threads.  Both are cut at their statements, so that the threads
    can be interleaved; [QMutex_lock] fails while the mutex is held, and a
    thread whose next statement fails cannot move. *)

Inductive CapturePc :=
| C216                    (* QMutexLocker locker( &m_frameBufferMutex ) *)
| C218                    (* the size test and the reallocation *)
| C207                    (* grabWindow: read the framebuffer into frameBuffer *)
| C209 (format : Format)  (* grabWindow: frameBuffer.convertTo( format ) *)
| C234                    (* the locker leaves its scope *)
| C238                    (* the markDirty loop *)
| CaptureDone.

Definition capture_step (k : CapturePc) : M CapturePc :=
  match k with
  | C216 => QMutex_lock;; mret C218
  | C218 =>
      ptr ← gets (λ w, m_window (server w));
      match ptr with
      | None => crash
      | Some TheWindow =>
          win ← gets (λ w, app_window (qt w));
          let size := QSize_times (win_size win) (devicePixelRatio win) in
          fb ← gets (λ w, m_frameBuffer (server w));
          when (bool_decide (size ≠ img_size fb))
            (upd_server (set_frameBuffer (QImage_new size Format_RGB32));;
             emit (EvAllocImage size Format_RGB32));;
          mret C207
      end
  | C207 =>
      fb ← gets (λ w, m_frameBuffer (server w));
      img ← qt_gl_read_framebuffer (img_size fb);
      upd_server (set_frameBuffer img);;
      mret (C209 (img_format fb))
  | C209 format =>
      upd_server (λ s, set_frameBuffer (convertTo format (m_frameBuffer s)) s);;
      emit (EvConvertTo format);;
      mret C234
  | C234 => QMutex_unlock;; mret C238
  | C238 =>
      threads ← gets (λ w, m_threads (server w));
      for_each threads markDirty;;
      mret CaptureDone
  | CaptureDone => mret CaptureDone
  end.

Inductive ReadPc :=
| R252                    (* QMutexLocker locker( &m_frameBufferMutex ) *)
| R253                    (* const auto fb = m_frameBuffer *)
| R255 (fb : QImage)      (* return fb: the locker leaves its scope *)
| Returned (fb : QImage).

Definition read_step (k : ReadPc) : M ReadPc :=
  match k with
  | R252 => QMutex_lock;; mret R253
  | R253 => fb ← gets (λ w, m_frameBuffer (server w)); mret (R255 fb)
  | R255 fb => QMutex_unlock;; mret (Returned fb)
  | Returned fb => mret (Returned fb)
  end.

(** [n] statements in a row. *)
Fixpoint iterate {A} (n : nat) (f : A → M A) (a : A) : M A :=
  match n with
  | O => mret a
  | S n' => a' ← f a; iterate n' f a'
  end.

Record Config := mkConfig {
  world : World;
  capture : CapturePc;          (* the render thread, in updateFrameBuffer() *)
  readers : list ReadPc;        (* client threads, in frameBuffer() *)
  released : list QImage        (* ghost: the buffer at each release of the
                                   lock by a capture, newest first, and at
                                   the start *)
}.

Inductive Move :=
| CaptureMoves
| ReaderMoves (i : nat)
| CaptureStarts
| ReaderStarts
| WindowChanges (size : QSize) (ratio : qreal)
| FrameIsRendered.

(** One move of one thread; [None] when the thread cannot move. *)
Definition move (m : Move) (c : Config) : option Config :=
  match m with
  | CaptureMoves =>
      match capture_step (capture c) (world c) with
      | Some (k, w) =>
          Some (mkConfig w k (readers c)
                  (match capture c with
                   | C234 => m_frameBuffer (server w) :: released c
                   | _ => released c
                   end))
      | None => None
      end
  | ReaderMoves i =>
      match readers c !! i with
      | Some r =>
          match read_step r (world c) with
          | Some (r', w) =>
              Some (mkConfig w (capture c) (<[i := r']> (readers c)) (released c))
          | None => None
          end
      | None => None
      end
  | CaptureStarts =>
      match capture c with
      | CaptureDone => Some (mkConfig (world c) C216 (readers c) (released c))
      | _ => None
      end
  | ReaderStarts =>
      Some (mkConfig (world c) (capture c) (readers c ++ [R252]) (released c))
  | WindowChanges size ratio =>
      match step (WindowResized size ratio) (world c) with
      | Some (_, w) => Some (mkConfig w (capture c) (readers c) (released c))
      | None => None
      end
  | FrameIsRendered =>
      match step FrameRendered (world c) with
      | Some (_, w) => Some (mkConfig w (capture c) (readers c) (released c))
      | None => None
      end
  end.

Fixpoint moves (ms : list Move) (c : Config) : option Config :=
  match ms with
  | [] => Some c
  | m :: ms' => match move m c with
                | Some c' => moves ms' c'
                | None => None
                end
  end.

(** No capture and no read under way. *)
Definition initial (w : World) : Config :=
  mkConfig w CaptureDone [] [m_frameBuffer (server w)].

(** Program points inside the scope of the [QMutexLocker]. *)
Definition capture_holds (k : CapturePc) : bool :=
  match k with
  | C218 | C207 | C209 _ | C234 => true
  | _ => false
  end.

Definition reader_holds (r : ReadPc) : bool :=
  match r with
  | R253 | R255 _ => true
  | _ => false
  end.

(** The local [fb] of [frameBuffer], once it is initialised. *)
Definition copy_of (r : ReadPc) : option QImage :=
  match r with
  | R255 fb | Returned fb => Some fb
  | _ => None
  end.

Inductive Owner := OwnerCapture | OwnerReader (i : nat).

#[global] Instance Owner_eq_dec : EqDecision Owner.
Proof. solve_decision. Defined.

(** The mutex has at most one owner, the buffer is as last released
    while no capture owns it, and every copy was taken from a released
    buffer. *)
Record Exclusive (c : Config) (owner : option Owner) : Prop := {
  excl_mutex :
    m_frameBufferMutex (server (world c)) = bool_decide (owner ≠ None);
  excl_capture :
    capture_holds (capture c) = bool_decide (owner = Some OwnerCapture);
  excl_reader : ∀ i r, readers c !! i = Some r →
    reader_holds r = bool_decide (owner = Some (OwnerReader i));
  excl_owner : ∀ i, owner = Some (OwnerReader i) → is_Some (readers c !! i);
  excl_stable :
    capture_holds (capture c) = false →
    head (released c) = Some (m_frameBuffer (server (world c)));
  excl_copies : ∀ i r fb,
    readers c !! i = Some r → copy_of r = Some fb → fb ∈ released c
}.

(** ** Further vocabulary *)

(** [VncServer::window()] *)
Definition window : M (option QWindowRef) := gets (λ w, m_window (server w)).

(** An action that leaves an observation [f] of the world as it is. *)
Definition keeps {B A} (f : World → B) (m : M A) : Prop :=
  ∀ w a w', m w = Some (a, w') → f w' = f w.

(** What a capture makes of the buffer [fb] when the producer is [win]:
    lines 218 to 233 of [updateFrameBuffer] as a function. *)
Definition captured (win : QWindow) (fb : QImage) : QImage :=
  let size := QSize_times (win_size win) (devicePixelRatio win) in
  let fb1 := if bool_decide (size ≠ img_size fb)
             then QImage_new size Format_RGB32 else fb in
  convertTo (img_format fb1)
    (mkQImage (img_size fb1) (gl_format win) (Grabbed (gl_frame win))).

(** Operations that may run a capture. *)
Definition captures (op : Op) : bool :=
  match op with
  | UpdateFrameBuffer | FrameSwapped => true
  | _ => false
  end.

Definition is_allocation (e : Event) : bool :=
  match e with EvAllocImage _ _ => true | _ => false end.

(** The events of a list that allocate a buffer. *)
Definition allocations (evs : list Event) : list Event :=
  filter (λ e, is_allocation e = true) evs.

(** The time limits of the [wait] calls of a list of events, summed. *)
Definition waited (evs : list Event) : Z :=
  foldr (λ e acc, match e with EvWait _ ms => ms + acc | _ => acc end) 0 evs.


(** A thread object that has been started, with [finished] connected. *)
Definition in_service (t : ClientThread) : Prop :=
  finished_to_removeClient t = true ∧ pc t ≠ NotStarted.

(** The thread objects alive are the threads of the set, all in service. *)
Definition tidy (w : World) : Prop :=
  (∀ p, p ∈ m_threads (server w) ↔ is_Some (heap (qt w) !! p))
  ∧ ∀ p t, heap (qt w) !! p = Some t → in_service t.

(** Program points of [ClientThread::run] after the event loop. *)
Definition past_loop (k : RunPc) : bool :=
  match k with
  | L102 | L103 | Done => true
  | _ => false
  end.

(** What makes the event loop of a thread return: [quit()], or the
    [disconnected] signal of its client, which line 98 connects to it. *)
Definition asks_to_stop (o : ThreadOp) : bool :=
  match o with
  | TQuit | TDisconnected => true
  | _ => false
  end.

(** The thread objects after [quit()] on each thread of [ths]. *)
Definition quit_all (ths : list addr) (hp : gmap addr ClientThread)
    : gmap addr ClientThread :=
  foldl (λ h p, alter quit p h) hp ths.

(** The producer reference, the set and the thread objects of a
    configuration are those of [w]. *)
Definition steady (w : World) (c : Config) : Prop :=
  m_window (server (world c)) = m_window (server w)
  ∧ m_threads (server (world c)) = m_threads (server w)
  ∧ heap (qt (world c)) = heap (qt w).

End VncServer.

(** ** A concrete producer

    Integer scale factors, an 800 x 600 window; used to run the model. *)

Definition IntegerRatio : DevicePixels := {|
  qreal := Z;
  QSize_times size c := mkQSize (wd size * c) (ht size * c)
|}.

Definition demo_window : @QWindow IntegerRatio :=
  @mkQWindow IntegerRatio true (mkQSize 800 600) 1 0%nat Format_RGBX8888.

(** The server of scenario 1: port 5999, ready to accept. *)
Definition demo_start : @World IntegerRatio :=
  default (boot demo_window)
    (construct 5999 (Some TheWindow) demo_window true).

Definition demo_ops : list (@Op IntegerRatio) :=
  [IncomingConnection 7; FrameRendered; FrameSwapped; IncomingConnection 8].

(** Two viewers attached, one frame captured. *)
Definition demo_world : @World IntegerRatio :=
  default demo_start (exec (run demo_ops) demo_start).

(** A viewer comes, goes, and another one comes. *)
Definition demo_conn_ops : list ConnOp :=
  [Add 7 (Some ObjTcpServer); Remove (Some (ObjThread 1%positive));
   Remove None; Add 8 (Some ObjTcpServer)].

(** A capture runs while a client thread reads the buffer. *)
Definition demo_moves : list (@Move IntegerRatio) :=
  [FrameIsRendered; CaptureStarts; ReaderStarts; CaptureMoves; CaptureMoves;
   CaptureMoves; CaptureMoves; CaptureMoves; ReaderMoves 0; ReaderMoves 0;
   CaptureMoves; ReaderMoves 0].

Definition demo_config : @Config IntegerRatio :=
  default (initial demo_world) (moves demo_moves (initial demo_world)).

(** What the reader of [demo_moves] gets: the second frame, whole. *)
Definition demo_copy : QImage :=
  mkQImage (mkQSize 800 600) Format_RGB32 (Converted Format_RGB32 (Grabbed 2)).

(** Viewers come and the window changes; no frame is swapped. *)
Definition demo_quiet_ops : list (@Op IntegerRatio) :=
  [IncomingConnection 9; @WindowResized IntegerRatio (mkQSize 1024 768) 2;
   FrameRendered;
   ThreadRuns 1%positive; FrameBuffer].

Definition demo_world_later : @World IntegerRatio :=
  default demo_world (exec (run demo_quiet_ops) demo_world).

(** A viewer attaches to the new server before any frame is swapped. *)
Definition demo_early_ops : list (@Op IntegerRatio) :=
  [IncomingConnection 7; FrameRendered; ThreadRuns 1%positive].

Definition demo_world_early : @World IntegerRatio :=
  default demo_start (exec (run demo_early_ops) demo_start).

(** A client thread asks for the buffer while a capture holds the lock. *)
Definition demo_contended : @Config IntegerRatio :=
  default (initial demo_world)
    (moves [CaptureStarts; ReaderStarts; CaptureMoves] (initial demo_world)).

(** A client thread has taken the lock and is about to copy. *)
Definition demo_reading : @Config IntegerRatio :=
  default (initial demo_world)
    (moves [ReaderStarts; ReaderMoves 0] (initial demo_world)).

(** A worker in its event loop whose client then disconnects. *)
Definition demo_thread_ops : list ThreadOp :=
  [TConnectFinished; TStart; TRuns; TRuns].

(** * Proofs *)

Section Proofs.
Context `{DevicePixels}.

Ltac sim :=
  cbv beta iota zeta delta
    [addClient removeClient updateFrameBuffer frameBuffer grabWindow markDirty
     VncServer_ctor incomingConnection thread_finished emit_frameSwapped
     mbind M_bind mret M_ret gets modify emit upd_server upd_qt when crash
     alter_thread Q_ASSERT qInfo TcpServer_listen serverPort new_ClientThread
     delete_thread QObject_connect_frameSwapped QObject_disconnect_grabConnection
     QMetaObject_invokeMethod_update connect_finished QThread_start QThread_quit
     QThread_wait wait_while QMutex_lock QMutex_unlock qt_gl_read_framebuffer
     ClientThread_markDirty set_threads set_grabConnectionId set_frameBuffer
     set_mutex set_window set_heap set_slots non_null negb andb
     server qt trace m_window m_cursor m_threads m_grabConnectionId
     m_frameBuffer m_frameBufferMutex app_window heap frameSwapped_slots
     next_connection listening exec fmap option_fmap option_map snd fst
     qobject_cast_QThread qobject_cast_QTcpServer].

Lemma addClient_eq fd sender mw mc ths g fb mx win hp slots nc lst tr :
  let p := fresh (dom hp) in
  let first := non_null mw && negb (non_null g) in
  addClient fd sender
    (mkWorld (mkVncServer mw mc ths g fb mx) (mkQtEnv win hp slots nc lst) tr)
  = Some (tt,
      mkWorld
        (mkVncServer mw mc (ths ++ [p]) (if first then Some nc else g) fb mx)
        (mkQtEnv win
           (<[p := started (finished_connected (ClientThread_new fd))]> hp)
           (if first then slots ++ [(nc, DirectConnection)] else slots)
           (if first then S nc else nc) lst)
        (tr ++ EvNew p fd
            :: (if first
                then [EvConnectFrameSwapped nc DirectConnection; EvInvokeUpdate]
                else [])
            ++ (if qobject_cast_QTcpServer sender
                then [EvInfo (LogAttached (default 0 lst) (length (ths ++ [p])))]
                else [])
            ++ [EvConnectFinished p; EvStart p])).
Proof.
  intros p first. subst p first.
  destruct mw, g; destruct sender as [[]|]; sim;
    rewrite !alter_insert_eq, <- ?app_assoc; reflexivity.
Qed.

Lemma removeClient_eq p mw mc ths g fb mx win hp slots nc lst tr :
  let ths' := removeOne p ths in
  let last := bool_decide (ths' = []) && non_null g in
  removeClient (Some (ObjThread p))
    (mkWorld (mkVncServer mw mc ths g fb mx) (mkQtEnv win hp slots nc lst) tr)
  = Some (tt,
      mkWorld
        (mkVncServer mw mc ths' (if last then None else g) fb mx)
        (mkQtEnv win (delete p (alter quit p hp))
           (match g with
            | Some id => if last then filter (λ c, c.1 ≠ id) slots else slots
            | None => slots
            end) nc lst)
        (tr ++ (match g with
                | Some id => if last then [EvDisconnect id] else []
                | None => []
                end)
            ++ [EvQuit p; EvWait p 100; EvDelete p;
                EvInfo (LogDetached (length ths'))])).
Proof.
  intros ths' last. subst ths' last. sim.
  destruct (bool_decide (removeOne p ths = [])), g; sim;
    rewrite <- ?app_assoc; reflexivity.
Qed.

Lemma thread_step_ok t o : thread_ok t → thread_ok (thread_step t o).
Proof.
  destruct t as [fd mcl cl k q f]. unfold thread_ok. cbn.
  destruct o, k; cbn; intros [-> ->]; cbn; try done; destruct q; by cbn.
Qed.

Lemma thread_after_ok fd ops : thread_ok (thread_after fd ops).
Proof.
  unfold thread_after. induction ops as [|o ops IH] using rev_ind; [done|].
  rewrite foldl_app. by apply thread_step_ok.
Qed.

Lemma reachable_forward_alive w p t c :
  Inv w → heap (qt w) !! p = Some t → m_client t = Some c → client t = Some c.
Proof.
  intros HI Hp Hc. destruct (inv_threads _ HI p t Hp) as (fd & ops & ->).
  pose proof (thread_after_ok fd ops) as Hok. unfold thread_ok in Hok.
  destruct (pc (thread_after fd ops)); destruct Hok as [Hm Hcl]; congruence.
Qed.

Lemma notify_eq ths s e tr :
  (∀ p, p ∈ ths → is_Some (heap e !! p)) →
  for_each ths markDirty (mkWorld s e tr)
  = Some (tt, mkWorld s e (tr ++ flat_map (dirty_events (heap e)) ths)).
Proof.
  destruct e as [win hp slots nc lst]. cbn [heap].
  revert tr. induction ths as [|p ths IH]; intros tr Hlive.
  - cbn. by rewrite app_nil_r.
  - destruct (Hlive p) as [t Ht]; [by left|].
    cbn [for_each flat_map]. unfold dirty_events at 1. sim. rewrite Ht.
    destruct (m_client t); sim; fold markDirty;
      (rewrite IH; [|intros q Hq; apply Hlive; by right]);
      by rewrite <- !app_assoc.
Qed.

Lemma updateFrameBuffer_eq mc ths g fb win hp slots nc lst tr :
  (∀ p, p ∈ ths → is_Some (hp !! p)) →
  let size := QSize_times (win_size win) (devicePixelRatio win) in
  let differs := bool_decide (size ≠ img_size fb) in
  let fb1 := if differs then QImage_new size Format_RGB32 else fb in
  updateFrameBuffer
    (mkWorld (mkVncServer (Some TheWindow) mc ths g fb false)
       (mkQtEnv win hp slots nc lst) tr)
  = Some (tt,
      mkWorld
        (mkVncServer (Some TheWindow) mc ths g
           (convertTo (img_format fb1)
              (mkQImage (img_size fb1) (gl_format win) (Grabbed (gl_frame win))))
           false)
        (mkQtEnv win hp slots nc lst)
        (tr ++ EvLock
            :: (if differs then [EvAllocImage size Format_RGB32] else [])
            ++ [EvReadFramebuffer (img_size fb1) (gl_frame win);
                EvConvertTo (img_format fb1); EvUnlock]
            ++ flat_map (dirty_events hp) ths)).
Proof.
  intros Hlive size differs fb1. subst fb1 differs size. sim.
  destruct (bool_decide _); sim; fold markDirty;
    rewrite notify_eq by done; cbn [heap]; by rewrite <- !app_assoc.
Qed.

Lemma frameBuffer_eq mw mc ths g fb e tr :
  frameBuffer (mkWorld (mkVncServer mw mc ths g fb false) e tr)
  = Some (fb, mkWorld (mkVncServer mw mc ths g fb false) e
                (tr ++ [EvLock; EvUnlock])).
Proof. sim. by rewrite <- app_assoc. Qed.

Lemma removeOne_notin x l : x ∉ l → removeOne x l = l.
Proof.
  induction l as [|y l IH]; [done|]. intros Hx. cbn.
  destruct (decide (y = x)) as [->|]; [by destruct Hx; left|].
  rewrite IH; [done|]. intros ?. apply Hx. by right.
Qed.

Lemma removeOne_length x l : x ∈ l → S (length (removeOne x l)) = length l.
Proof.
  induction l as [|y l IH]; [by intros ?%elem_of_nil|]. intros Hx. cbn.
  destruct (decide (y = x)) as [->|Hne]; [done|]. cbn. f_equal. apply IH.
  apply elem_of_cons in Hx as [->|]; done.
Qed.

Lemma removeOne_elem x y l : y ∈ removeOne x l → y ∈ l.
Proof.
  induction l as [|z l IH]; [done|]. cbn.
  destruct (decide (z = x)); [by right|].
  intros [->|]%elem_of_cons; [by left|]. right. by apply IH.
Qed.

Lemma removeOne_elem_ne x y l : y ≠ x → y ∈ l → y ∈ removeOne x l.
Proof.
  intros Hne. induction l as [|z l IH]; [done|]. cbn.
  destruct (decide (z = x)) as [->|Hz]; intros [->|Hy]%elem_of_cons;
    [done|done|by left|right; by apply IH].
Qed.

Lemma removeOne_NoDup x l : NoDup l → NoDup (removeOne x l) ∧ x ∉ removeOne x l.
Proof.
  induction 1 as [|y l Hy Hl [IH1 IH2]]; cbn.
  - split; [constructor|]. by intros ?%elem_of_nil.
  - destruct (decide (y = x)) as [->|Hne]; [done|]. split.
    + constructor; [|done]. intros ?%removeOne_elem. done.
    + intros [->|]%elem_of_cons; done.
Qed.

Lemma addClient_Inv fd sender w :
  Inv w → ∃ w', addClient fd sender w = Some (tt, w') ∧ Inv w'.
Proof.
  destruct w as [[mw mc ths g fb mx] [win hp slots nc lst] tr].
  intros [Hw Hnd Hlive Hthr Hsub Hmx]. cbn in Hw, Hnd, Hlive, Hthr, Hsub, Hmx. subst mw mx.
  rewrite addClient_eq. eexists; split; [done|].
  pose proof (is_fresh (dom hp)) as Hfresh.
  split; cbn.
  - done.
  - apply NoDup_app. split_and!; [done| |apply NoDup_singleton].
    intros x Hx ->%list_elem_of_singleton. apply Hfresh.
    by apply elem_of_dom, Hlive.
  - intros q [Hq| ->%list_elem_of_singleton]%elem_of_app.
    + apply lookup_insert_is_Some'. right. by apply Hlive.
    + rewrite lookup_insert_eq. done.
  - intros q t [[<- <-]|[_ Hq]]%lookup_insert_Some; [|by eapply Hthr].
    by exists fd, [TConnectFinished; TStart].
  - destruct g as [id|]; cbn; destruct Hsub as [-> Hths].
    + split; [done|]. by destruct ths.
    + split; [done|]. by destruct ths.
  - done.
Qed.

Lemma removeClient_Inv sender w :
  Inv w → ∃ w', removeClient sender w = Some (tt, w') ∧ Inv w'.
Proof.
  intros HI.
  destruct (qobject_cast_QThread sender) as [p|] eqn:Hcast; cycle 1.
  { exists w. split; [|done]. unfold removeClient. by rewrite Hcast. }
  assert (sender = Some (ObjThread p)) as ->.
  { destruct sender as [[]|]; cbn in Hcast; congruence. }
  destruct w as [[mw mc ths g fb mx] [win hp slots nc lst] tr].
  destruct HI as [Hw Hnd Hlive Hthr Hsub Hmx]. cbn in Hw, Hnd, Hlive, Hthr, Hsub, Hmx. subst mw mx.
  rewrite removeClient_eq. eexists; split; [done|].
  destruct (removeOne_NoDup p ths Hnd) as [Hnd' Hp].
  split; cbn.
  - done.
  - done.
  - intros q Hq. assert (q ≠ p) by (intros ->; done).
    rewrite lookup_delete_ne, lookup_alter_ne by done.
    by apply Hlive, (removeOne_elem p).
  - intros q t [Hne Hq]%lookup_delete_Some.
    rewrite lookup_alter_ne in Hq by done. by eapply Hthr.
  - destruct g as [id|]; cbn.
    + destruct Hsub as [-> Hths]. case_bool_decide as Hemp; cbn.
      * split; [|done]. case_decide; [congruence|done].
      * done.
    + destruct Hsub as [-> ->]. rewrite andb_false_r. done.
  - done.
Qed.

Lemma Inv_env w w' :
  Inv w →
  server w' = server w →
  frameSwapped_slots (qt w') = frameSwapped_slots (qt w) →
  heap (qt w') = heap (qt w) →
  Inv w'.
Proof.
  intros [Hw Hnd Hlive Hthr Hsub Hmx] Hs Hslots Hheap.
  split; rewrite ?Hs, ?Hslots, ?Hheap; auto.
Qed.

Lemma Inv_alter w (o : ThreadOp) p :
  Inv w →
  Inv (mkWorld (server w)
         (set_heap (alter (λ t, thread_step t o) p (heap (qt w))) (qt w))
         (trace w)).
Proof.
  intros [Hw Hnd Hlive Hthr Hsub Hmx]. split; cbn; try done.
  - intros q Hq. apply lookup_alter_is_Some. by apply Hlive.
  - intros q t'. destruct (decide (p = q)) as [<-|Hne].
    + rewrite lookup_alter_eq. destruct (heap (qt w) !! p) as [t|] eqn:Hp; [|done].
      intros [= <-]. destruct (Hthr p t Hp) as (fd & ops & ->).
      exists fd, (ops ++ [o]). unfold thread_after. by rewrite foldl_app.
    + rewrite lookup_alter_ne by done. apply Hthr.
Qed.

Lemma bind_eq {A B} (m : M A) (f : A → M B) w a w' :
  m w = Some (a, w') → (m ≫= f) w = f a w'.
Proof. intros Hm. unfold mbind, M_bind. by rewrite Hm. Qed.

Lemma updateFrameBuffer_Inv w :
  Inv w → ∃ w', updateFrameBuffer w = Some (tt, w') ∧ Inv w'.
Proof.
  destruct w as [[mw mc ths g fb mx] [win hp slots nc lst] tr].
  intros [Hw Hnd Hlive Hthr Hsub Hmx]. cbn in Hw, Hnd, Hlive, Hthr, Hsub, Hmx. subst mw mx.
  rewrite updateFrameBuffer_eq by done. eexists; split; [done|].
  by split.
Qed.

Lemma frameBuffer_Inv w :
  Inv w → ∃ fb w', frameBuffer w = Some (fb, w') ∧ Inv w'.
Proof.
  destruct w as [[mw mc ths g fb mx] e tr].
  intros [Hw Hnd Hlive Hthr Hsub Hmx]. cbn in Hw, Hnd, Hlive, Hthr, Hsub, Hmx. subst mw mx.
  rewrite frameBuffer_eq. do 2 eexists; split; [done|]. by split.
Qed.

Lemma step_Inv op w : Inv w → ∃ w', step op w = Some (tt, w') ∧ Inv w'.
Proof.
  intros HI. destruct op as [fd sender|sender| | |fd|p|p|p| |size ratio|]; cbn [step].
  - by apply addClient_Inv.
  - by apply removeClient_Inv.
  - by apply updateFrameBuffer_Inv.
  - destruct (frameBuffer_Inv w HI) as (fb & w' & Hfb & HI').
    exists w'. split; [|done]. by rewrite (bind_eq _ _ _ _ _ Hfb).
  - unfold incomingConnection, mbind, M_bind, gets, when, non_null.
    destruct (listening (qt w)); [by apply addClient_Inv|by exists w].
  - eexists; split; [done|]. apply (Inv_alter w TRuns p HI).
  - unfold thread_finished, mbind, M_bind, gets, when.
    destruct (heap (qt w) !! p) as [t|]; [|by exists w].
    destruct (bool_decide _ && _); [by apply removeClient_Inv|by exists w].
  - eexists; split; [done|]. apply (Inv_alter w TDisconnected p HI).
  - unfold emit_frameSwapped, mbind, M_bind, gets.
    pose proof (inv_subscription _ HI) as Hsub.
    destruct (m_grabConnectionId (server w)) as [id|];
      destruct Hsub as [Hslots Hths]; rewrite Hslots; cbn [for_each snd].
    + destruct (updateFrameBuffer_Inv w HI) as (w' & Hu & HI').
      exists w'. split; [|done]. by rewrite (bind_eq _ _ _ _ _ Hu).
    + by exists w.
  - eexists; split; [done|]. by apply (Inv_env w).
  - eexists; split; [done|]. by apply (Inv_env w).
Qed.

Lemma run_Inv ops w : Inv w → ∃ w', run ops w = Some (tt, w') ∧ Inv w'.
Proof.
  revert w. induction ops as [|op ops IH]; intros w HI; [by exists w|].
  destruct (step_Inv op w HI) as (w1 & Hstep & HI1).
  destruct (IH w1 HI1) as (w2 & Hrun & HI2).
  exists w2. split; [|done]. unfold run in *. cbn [for_each].
  by rewrite (bind_eq _ _ _ _ _ Hstep).
Qed.

Lemma construct_eq port window win listen_ok :
  construct port window win listen_ok
  = if non_null window && inherits_QQuickWindow win
    then Some (mkWorld (VncServer_init window)
                 (mkQtEnv win ∅ [] 0%nat (if listen_ok then Some port else None))
                 (EvListen port listen_ok
                  :: if listen_ok then [EvInfo (LogCreated port)] else []))
    else None.
Proof.
  unfold construct, boot. sim.
  destruct window, (inherits_QQuickWindow win), listen_ok; reflexivity.
Qed.

Lemma construct_Inv port window win listen_ok w0 :
  construct port window win listen_ok = Some w0 → Inv w0.
Proof.
  rewrite construct_eq. destruct window as [[]|]; [|done]. cbn.
  destruct (inherits_QQuickWindow win); [|done]. intros [= <-].
  split; cbn; [done|apply NoDup_nil_2|by intros p ?%elem_of_nil| |done|done].
  intros p t. by rewrite lookup_empty.
Qed.

Lemma reachable_Inv w : reachable w → Inv w.
Proof.
  intros (port & window & win & ok & w0 & ops & Hc & Hr).
  apply construct_Inv in Hc.
  destruct (run_Inv ops w0 Hc) as (w' & Hrun & HI).
  unfold exec in Hr. rewrite Hrun in Hr. cbn in Hr. by injection Hr as <-.
Qed.

Lemma subscribed_iff w :
  Inv w →
  (subscribed w = true ↔ m_threads (server w) ≠ [])
  ∧ non_null (m_grabConnectionId (server w)) = subscribed w.
Proof.
  intros HI. pose proof (inv_subscription _ HI) as Hsub. unfold subscribed.
  destruct (m_grabConnectionId (server w)); destruct Hsub as [-> Hths].
  - rewrite bool_decide_true by done. done.
  - rewrite bool_decide_false by (by intros ?). rewrite Hths. split; [|done].
    split; [done|]. by intros ?.
Qed.

(** C1.  Whatever happens to a constructed server, and in particular
    for every sequence of [addClient] and [removeClient] invocations:
    after each operation of the sequence (its first [n], for every [n])
    the render-complete subscription ([frameSwapped] connected to
    [updateFrameBuffer]) is active if and only if the connection set
    [m_threads] is non-empty, and the handle [m_grabConnectionId] is valid
    exactly then; so a connection added after the set has emptied
    subscribes again. *)
Theorem subscription_iff_connections port window win listen_ok w0 ops :
  construct port window win listen_ok = Some w0 →
  ∀ n, ∃ w, exec (run (take n ops)) w0 = Some w
            ∧ (subscribed w = true ↔ m_threads (server w) ≠ [])
            ∧ non_null (m_grabConnectionId (server w)) = subscribed w.
Proof.
  intros Hc n. apply construct_Inv in Hc.
  destruct (run_Inv (take n ops) w0 Hc) as (w & Hrun & HI).
  exists w. split; [|by apply subscribed_iff].
  unfold exec. by rewrite Hrun.
Qed.

(** C10.  [removeClient] invoked with no sender, or with a sender that is
    not a [QThread], leaves everything as it is: the connection set, the
    subscription handle, the frame buffer, the thread objects, and the
    trace (no thread is quit or deleted, nothing is logged). *)
Theorem removeClient_foreign_sender sender w :
  qobject_cast_QThread sender = None →
  removeClient sender w = Some (tt, w).
Proof. intros Hcast. unfold removeClient. by rewrite Hcast. Qed.

Lemma finishing_thread fd :
  run_step (run_step (run_step (client_disconnected (run_step (run_step
    (started (finished_connected (ClientThread_new fd))))))))
  = mkClientThread fd None None Done true true.
Proof. reflexivity. Qed.

Lemma finishing_run p fd s win hp slots nc lst tr :
  run (finishing p)
    (mkWorld s
       (mkQtEnv win (<[p := started (finished_connected (ClientThread_new fd))]> hp)
          slots nc lst) tr)
  = (removeClient (Some (ObjThread p));; mret tt)
      (mkWorld s
         (mkQtEnv win (<[p := mkClientThread fd None None Done true true]> hp)
            slots nc lst) tr).
Proof.
  cbv beta iota zeta delta
    [run finishing for_each step alter_thread upd_qt modify mbind M_bind
     set_heap qt heap server trace app_window frameSwapped_slots
     next_connection listening thread_finished gets when].
  rewrite !alter_insert_eq, finishing_thread, lookup_insert_eq.
  cbn [pc finished_to_removeClient]. by rewrite bool_decide_true.
Qed.

Lemma removeOne_snoc x l : x ∉ l → removeOne x (l ++ [x]) = l.
Proof.
  induction l as [|y l IH]; intros Hx; cbn.
  - by rewrite decide_True.
  - rewrite decide_False by (intros ->; apply Hx; by left).
    rewrite IH; [done|]. intros ?. apply Hx. by right.
Qed.

Lemma fresh_not_registered w :
  Inv w → fresh (dom (heap (qt w))) ∉ m_threads (server w).
Proof.
  intros HI Hp. apply (is_fresh (dom (heap (qt w)))).
  by apply elem_of_dom, (inv_live _ HI).
Qed.

Lemma exec_eq {A} (m : M A) w a w' : m w = Some (a, w') → exec m w = Some w'.
Proof. intros Hm. unfold exec. by rewrite Hm. Qed.

(** C2.  Every [addClient( fd )] on a reachable server creates a thread
    object [p] for [fd] that is not in the connection set yet, appends it
    to the set, connects its [finished] to [removeClient] (so that, once
    the thread has run to its end, [p] is out of the set again) and starts
    it; and exactly when the set was empty before the call it connects
    [frameSwapped] to [updateFrameBuffer] with [Qt::DirectConnection] and
    invokes [update] on the window once. *)
Theorem addClient_spawns_and_subscribes fd sender w :
  reachable w →
  let p := fresh (dom (heap (qt w))) in
  let was_empty := bool_decide (m_threads (server w) = []) in
  ∃ w' t,
    exec (addClient fd sender) w = Some w'
    ∧ (p ∉ m_threads (server w))
    ∧ m_threads (server w') = m_threads (server w) ++ [p]
    ∧ heap (qt w') !! p = Some t
    ∧ m_socketDescriptor t = fd
    ∧ finished_to_removeClient t = true
    ∧ (∃ w'', exec (run (finishing p)) w' = Some w''
              ∧ m_threads (server w'') = m_threads (server w))
    ∧ frameSwapped_slots (qt w')
      = (if was_empty then [(next_connection (qt w), DirectConnection)]
         else frameSwapped_slots (qt w))
    ∧ trace w'
      = trace w
        ++ EvNew p fd
        :: (if was_empty
            then [EvConnectFrameSwapped (next_connection (qt w)) DirectConnection;
                  EvInvokeUpdate]
            else [])
        ++ (if qobject_cast_QTcpServer sender
            then [EvInfo (LogAttached (default 0 (listening (qt w)))
                            (S (length (m_threads (server w)))))]
            else [])
        ++ [EvConnectFinished p; EvStart p].
Proof.
  intros HI%reachable_Inv p was_empty.
  pose proof (fresh_not_registered w HI) as Hp. fold p in Hp.
  destruct w as [[mw mc ths g fb mx] [win hp slots nc lst] tr].
  destruct HI as [Hw Hnd Hlive Hthr Hsub Hmx]. cbn in Hw, Hnd, Hlive, Hthr, Hsub, Hmx, Hp.
  subst mw mx. cbn in p, was_empty.
  assert (non_null (Some TheWindow) && negb (non_null g) = was_empty) as Hfirst.
  { subst was_empty. destruct g; destruct Hsub as [_ Hths]; cbn.
    - by rewrite bool_decide_false.
    - by rewrite bool_decide_true. }
  eexists _, _. split; [apply (exec_eq _ _ tt), addClient_eq|]. fold p. rewrite Hfirst.
  cbn [server qt trace m_threads heap frameSwapped_slots next_connection listening].
  split_and!.
  - done.
  - done.
  - apply lookup_insert_eq.
  - done.
  - done.
  - unfold exec. rewrite finishing_run.
    rewrite (bind_eq _ _ _ _ _ (removeClient_eq _ _ _ _ _ _ _ _ _ _ _ _ _)).
    eexists; split; [done|]. cbn. by apply removeOne_snoc.
  - destruct was_empty; [|done]. destruct g; [done|]. by destruct Hsub as [-> _].
  - by rewrite length_app, Nat.add_comm.
Qed.

Lemma convertTo_size format img : img_size (convertTo format img) = img_size img.
Proof. unfold convertTo. by repeat case_decide. Qed.

Lemma convertTo_source format img :
  pixel_source (img_data (convertTo format img)) = pixel_source (img_data img).
Proof. unfold convertTo. by repeat case_decide. Qed.

Lemma notified_dirty hp ths : notified (flat_map (dirty_events hp) ths) = ths.
Proof.
  induction ths as [|p ths IH]; [done|]. cbn [flat_map].
  unfold notified in *. rewrite omap_app, IH. unfold dirty_events.
  by destruct (hp !! p) as [t|]; [destruct (m_client t)|].
Qed.

Lemma dirty_events_notifications hp ths :
  Forall (λ e, is_notification e = true) (flat_map (dirty_events hp) ths).
Proof.
  induction ths as [|p ths IH]; [constructor|]. cbn [flat_map].
  apply Forall_app. split; [|done]. unfold dirty_events.
  destruct (hp !! p) as [t|]; [destruct (m_client t)|]; repeat constructor.
Qed.

(** C3.  [removeClient] invoked by a thread [p] of the connection set
    takes [p] out of the set (which shrinks by one), disconnects the
    render-complete subscription exactly when the set is empty afterwards,
    then calls [quit] on the thread, waits for it for [ms] milliseconds
    with [10 <= ms <= 300], deletes it, and logs the new size of the set,
    in this order. *)
Theorem removeClient_present p w :
  reachable w →
  p ∈ m_threads (server w) →
  ∃ w' id ms,
    exec (removeClient (Some (ObjThread p))) w = Some w'
    ∧ m_threads (server w') = removeOne p (m_threads (server w))
    ∧ (p ∉ m_threads (server w'))
    ∧ S (length (m_threads (server w'))) = length (m_threads (server w))
    ∧ m_grabConnectionId (server w) = Some id
    ∧ subscribed w = true
    ∧ (subscribed w' = false ↔ m_threads (server w') = [])
    ∧ heap (qt w') !! p = None
    ∧ trace w'
      = trace w
        ++ (if bool_decide (m_threads (server w') = [])
            then [EvDisconnect id] else [])
        ++ [EvQuit p; EvWait p ms; EvDelete p;
            EvInfo (LogDetached (length (m_threads (server w'))))]
    ∧ 10 ≤ ms ≤ 300.
Proof.
  intros HI%reachable_Inv Hp.
  destruct (removeClient_Inv (Some (ObjThread p)) w HI) as (w' & Hrun & HI').
  pose proof (subscribed_iff w HI) as [Hsubw _].
  pose proof (subscribed_iff w' HI') as [Hsubw' _].
  destruct w as [[mw mc ths g fb mx] [win hp slots nc lst] tr].
  destruct HI as [Hw Hnd Hlive Hthr Hsub Hmx]. cbn in Hw, Hnd, Hlive, Hthr, Hsub, Hmx, Hp.
  subst mw mx. rewrite removeClient_eq in Hrun. injection Hrun as <-.
  destruct g as [id|]; [|destruct Hsub as [_ ->]; by apply elem_of_nil in Hp].
  cbn in Hsubw, Hsubw'. cbn [non_null] in *. rewrite andb_true_r in *.
  eexists _, id, 100. split; [apply (exec_eq _ _ tt), removeClient_eq|].
  cbn [server qt trace m_threads heap m_grabConnectionId non_null].
  rewrite andb_true_r. split_and!.
  - done.
  - by apply removeOne_NoDup.
  - by apply removeOne_length.
  - done.
  - apply Hsubw. intros ->. by apply elem_of_nil in Hp.
  - destruct (decide (removeOne p ths = [])) as [He|Hne].
    + split; [done|]. intros _. apply not_true_is_false. intros Ht.
      by apply Hsubw' in Ht.
    + split; [|done]. intros Hf. apply Hsubw' in Hne. congruence.
  - apply lookup_delete_eq.
  - done.
  - done.
  - done.
Qed.

(** C4.  Every [updateFrameBuffer] on a reachable server takes the lock,
    computes the window's size times its device pixel ratio, allocates a
    new buffer of that size exactly when the buffer's size differs, reads
    the current frame of the producer into the buffer, converts it, and
    only then releases the lock; afterwards the buffer has that size and
    holds that frame, and this is what [frameBuffer] returns. *)
Theorem capture_sizes_and_copies w :
  reachable w →
  let win := app_window (qt w) in
  let size := QSize_times (win_size win) (devicePixelRatio win) in
  let old := m_frameBuffer (server w) in
  let differs := bool_decide (size ≠ img_size old) in
  ∃ w' notify,
    exec updateFrameBuffer w = Some w'
    ∧ img_size (m_frameBuffer (server w')) = size
    ∧ pixel_source (img_data (m_frameBuffer (server w'))) = Some (gl_frame win)
    ∧ trace w'
      = trace w
        ++ [EvLock]
        ++ (if differs then [EvAllocImage size Format_RGB32] else [])
        ++ [EvReadFramebuffer size (gl_frame win);
            EvConvertTo (if differs then Format_RGB32 else img_format old);
            EvUnlock]
        ++ notify
    ∧ Forall (λ e, is_notification e = true) notify
    ∧ frameBuffer w'
      = Some (m_frameBuffer (server w'),
              mkWorld (server w') (qt w') (trace w' ++ [EvLock; EvUnlock])).
Proof.
  intros HI%reachable_Inv.
  destruct w as [[mw mc ths g fb mx] [win hp slots nc lst] tr].
  destruct HI as [Hw Hnd Hlive Hthr Hsub Hmx]. cbn in Hw, Hnd, Hlive, Hthr, Hsub, Hmx.
  subst mw mx. cbn [app_window qt server m_frameBuffer].
  set (size := QSize_times (win_size win) (devicePixelRatio win)).
  set (differs := bool_decide (size ≠ img_size fb)).
  eexists _, (flat_map (dirty_events hp) ths).
  split; [apply (exec_eq _ _ tt), updateFrameBuffer_eq; done|].
  fold size differs.
  cbn [server qt trace m_frameBuffer].
  assert (img_size (if differs then QImage_new size Format_RGB32 else fb) = size)
    as Hsize.
  { subst differs. case_bool_decide as Hd; [done|]. congruence. }
  rewrite convertTo_size, convertTo_source, Hsize. cbn [img_size img_data pixel_source].
  split_and!.
  - done.
  - done.
  - by destruct differs.
  - apply dirty_events_notifications.
  - apply frameBuffer_eq.
Qed.

(** C5.  In every [updateFrameBuffer] on a reachable server the trace is:
    the critical section, which starts with the lock, ends with the read
    of the framebuffer and its conversion, and contains no unlock; then
    the unlock; then the notifications, in which [markDirty] is called on
    the threads of the connection set, each once and on no other; none
    when the set is empty. *)
Theorem capture_notifies_after_unlock w :
  reachable w →
  ∃ w' critical notify,
    exec updateFrameBuffer w = Some w'
    ∧ trace w' = trace w ++ critical ++ [EvUnlock] ++ notify
    ∧ head critical = Some EvLock
    ∧ (∃ size frame format pre,
         critical = pre ++ [EvReadFramebuffer size frame; EvConvertTo format])
    ∧ (EvUnlock ∉ critical)
    ∧ Forall (λ e, is_notification e = true) notify
    ∧ notified notify = m_threads (server w)
    ∧ (m_threads (server w) = [] → notify = []).
Proof.
  intros HI%reachable_Inv.
  destruct w as [[mw mc ths g fb mx] [win hp slots nc lst] tr].
  destruct HI as [Hw Hnd Hlive Hthr Hsub Hmx]. cbn in Hw, Hnd, Hlive, Hthr, Hsub, Hmx.
  subst mw mx. cbn [server m_threads trace].
  set (size := QSize_times (win_size win) (devicePixelRatio win)).
  set (differs := bool_decide (size ≠ img_size fb)).
  set (fb1 := if differs then QImage_new size Format_RGB32 else fb).
  eexists _,
    (EvLock :: (if differs then [EvAllocImage size Format_RGB32] else [])
     ++ [EvReadFramebuffer (img_size fb1) (gl_frame win);
         EvConvertTo (img_format fb1)]),
    (flat_map (dirty_events hp) ths).
  split; [apply (exec_eq _ _ tt), updateFrameBuffer_eq; done|].
  fold size differs fb1. cbn [trace]. split_and!.
  - f_equal. cbn [app]. f_equal. by rewrite <- !app_assoc.
  - done.
  - by exists (img_size fb1), (gl_frame win), (img_format fb1),
      (EvLock :: if differs then [EvAllocImage size Format_RGB32] else []).
  - destruct differs; cbn [app]; intros Hin;
      repeat (apply elem_of_cons in Hin as [Hin|Hin]; [discriminate Hin|]);
      by apply elem_of_nil in Hin.
  - apply dirty_events_notifications.
  - apply notified_dirty.
  - by intros ->.
Qed.

(** C7 (amended).  On every thread object, whatever has happened to it:
    while no handler exists (before line 97 has run and after [run] has
    returned) [m_client] is null; with [m_client] null, [markDirty] returns
    at once and changes nothing, taking no lock; with [m_client] set, the
    handler exists and the call is forwarded to it; and [m_client] is set
    exactly from the assignment in line 100 to the reset in line 102. *)
Theorem markDirty_forwards_while_published fd ops p w :
  let t := thread_after fd ops in
  (client t = None → m_client t = None)
  ∧ (m_client t = None → ClientThread_markDirty p t w = Some (tt, w))
  ∧ (∀ c, m_client t = Some c →
       client t = Some c
       ∧ ClientThread_markDirty p t w
         = Some (tt, mkWorld (server w) (qt w)
                       (trace w ++ [EvClientMarkDirty p c])))
  ∧ (is_Some (m_client t) ↔ pc t = L101 ∨ pc t = L102).
Proof.
  intros t. pose proof (thread_after_ok fd ops) as Hok. fold t in Hok.
  unfold thread_ok, ClientThread_markDirty in *.
  destruct (pc t); destruct Hok as [Hm Hc]; rewrite Hm, ?Hc; split_and!;
    try done; try (intros c [= <-]; done);
    try (split; [by intros []%is_Some_None|by intros [|]]);
    try (split; [auto|done]).
Qed.

Lemma quiet_ret {A} (a : A) : quiet (mret a).
Proof.
  intros w a' w' [= _ <-]. split; [done|]. exists []. by rewrite app_nil_r.
Qed.

Lemma quiet_bind {A B} (m : M A) (f : A → M B) :
  quiet m → (∀ a, quiet (f a)) → quiet (m ≫= f).
Proof.
  intros Hm Hf w b w2 Hrun. unfold mbind, M_bind in Hrun.
  destruct (m w) as [[a w1]|] eqn:Hm1; [|done].
  destruct (Hm _ _ _ Hm1) as (Hl1 & evs1 & Ht1 & He1).
  destruct (Hf a _ _ _ Hrun) as (Hl2 & evs2 & Ht2 & He2).
  split; [congruence|]. exists (evs1 ++ evs2).
  split; [by rewrite Ht2, Ht1, app_assoc|by apply Forall_app].
Qed.

Lemma quiet_gets {A} (f : World → A) : quiet (gets f).
Proof.
  intros w a w' [= _ <-]. split; [done|]. exists []. by rewrite app_nil_r.
Qed.

Lemma quiet_crash {A} : quiet (crash : M A).
Proof. by intros w a w' [=]. Qed.

Lemma quiet_emit e : is_startup e = false → quiet (emit e).
Proof.
  intros He w a w' [= <- <-]. split; [done|]. exists [e].
  split; [done|]. by repeat constructor.
Qed.

Lemma quiet_upd_server f : quiet (upd_server f).
Proof.
  intros w a w' [= <- <-]. split; [done|]. exists []. by rewrite app_nil_r.
Qed.

Lemma quiet_upd_qt f : (∀ e, listening (f e) = listening e) → quiet (upd_qt f).
Proof.
  intros Hf w a w' [= <- <-]. split; [apply Hf|]. exists []. by rewrite app_nil_r.
Qed.

Lemma quiet_when b m : quiet m → quiet (when b m).
Proof. destruct b; [done|]. intros _. apply quiet_ret. Qed.

Lemma quiet_for_each {A} (l : list A) body :
  (∀ x, quiet (body x)) → quiet (for_each l body).
Proof.
  intros Hb. induction l as [|x l IH]; [apply quiet_ret|].
  cbn [for_each]. by apply quiet_bind.
Qed.

Lemma quiet_new_ClientThread fd : quiet (new_ClientThread fd).
Proof.
  intros w a w' [= <- <-]. split; [done|]. eexists [_]. split; [done|].
  by repeat constructor.
Qed.

Lemma quiet_ClientThread_markDirty p t : quiet (ClientThread_markDirty p t).
Proof.
  unfold ClientThread_markDirty.
  destruct (m_client t); [by apply quiet_emit|apply quiet_ret].
Qed.

Ltac quiet_step :=
  first
    [ apply quiet_ret | apply quiet_ClientThread_markDirty
    | apply quiet_new_ClientThread | apply quiet_gets | apply quiet_crash
    | apply quiet_upd_server
    | apply quiet_emit; reflexivity
    | apply quiet_upd_qt; intros []; reflexivity
    | apply quiet_when
    | apply quiet_for_each; intros ?
    | apply quiet_bind; [|intros ?]
    | match goal with
      | |- quiet (match ?x with _ => _ end) => destruct x
      end ].

Lemma quiet_markDirty p : quiet (markDirty p).
Proof. unfold markDirty. repeat quiet_step. Qed.

Lemma quiet_updateFrameBuffer : quiet updateFrameBuffer.
Proof.
  unfold updateFrameBuffer, QMutex_lock, QMutex_unlock, grabWindow,
    qt_gl_read_framebuffer, wait_while.
  repeat quiet_step.
Qed.

Lemma quiet_addClient fd sender : quiet (addClient fd sender).
Proof.
  unfold addClient, QObject_connect_frameSwapped, QMetaObject_invokeMethod_update,
    serverPort, qInfo, connect_finished, QThread_start, alter_thread.
  repeat quiet_step.
Qed.

Lemma quiet_removeClient sender : quiet (removeClient sender).
Proof.
  unfold removeClient, QObject_disconnect_grabConnection, QThread_quit,
    QThread_wait, delete_thread, alter_thread, qInfo.
  repeat quiet_step.
Qed.

Lemma quiet_step_op op : quiet (step op).
Proof.
  destruct op; cbn [step].
  - apply quiet_addClient.
  - apply quiet_removeClient.
  - apply quiet_updateFrameBuffer.
  - unfold frameBuffer, QMutex_lock, QMutex_unlock, wait_while.
    repeat quiet_step.
  - unfold incomingConnection. repeat quiet_step.
  - unfold alter_thread. quiet_step.
  - unfold thread_finished. repeat quiet_step.
  - unfold alter_thread. quiet_step.
  - unfold emit_frameSwapped. repeat quiet_step.
  - quiet_step.
  - quiet_step.
Qed.

Lemma quiet_run ops : quiet (run ops).
Proof. apply quiet_for_each, quiet_step_op. Qed.

Lemma external_step_dormant op w :
  external op = true → dormant w →
  ∃ w', step op w = Some (tt, w')
        ∧ server w' = server w ∧ trace w' = trace w ∧ dormant w'.
Proof.
  destruct w as [s [win hp slots nc lst] tr].
  intros Hext (Hh & Hs & Hl). cbn in Hh, Hs, Hl. subst hp slots lst.
  destruct op; try discriminate Hext; cbn [step];
    (eexists; split; [reflexivity|]); cbn; unfold dormant; cbn;
    rewrite ?alter_empty; done.
Qed.

Lemma external_run_dormant ops w :
  forallb external ops = true → dormant w →
  ∃ w', run ops w = Some (tt, w')
        ∧ server w' = server w ∧ trace w' = trace w ∧ dormant w'.
Proof.
  revert w. induction ops as [|op ops IH]; intros w Hext Hd; [by exists w|].
  cbn in Hext. apply andb_prop in Hext as [Hop Hext].
  destruct (external_step_dormant op w Hop Hd) as (w1 & Hstep & Hs1 & Ht1 & Hd1).
  destruct (IH w1 Hext Hd1) as (w2 & Hrun & Hs2 & Ht2 & Hd2).
  exists w2. split; [|split_and!; [congruence|congruence|done]].
  unfold run in *. cbn [for_each]. by rewrite (bind_eq _ _ _ _ _ Hstep).
Qed.

(** C8 (amended).  The constructor, given a [QQuickWindow], returns
    whether or not [listen] succeeds; it calls [listen] once and logs
    readiness exactly on success, and nothing on failure.  Whatever happens
    afterwards, no further [listen] and no further readiness line occur and
    the socket stays as the constructor left it; and after a failure no
    event from the network, the threads or the producer changes the server
    or adds to the trace. *)
Theorem listen_outcome port win listen_ok ops :
  inherits_QQuickWindow win = true →
  ∃ w0 w evs,
    construct port (Some TheWindow) win listen_ok = Some w0
    ∧ trace w0
      = EvListen port listen_ok
        :: (if listen_ok then [EvInfo (LogCreated port)] else [])
    ∧ exec (run ops) w0 = Some w
    ∧ trace w = trace w0 ++ evs
    ∧ Forall (λ e, is_startup e = false) evs
    ∧ listening (qt w) = (if listen_ok then Some port else None)
    ∧ (listen_ok = false → forallb external ops = true →
       server w = server w0 ∧ evs = [] ∧ heap (qt w) = ∅).
Proof.
  intros Hwin.
  pose proof (construct_eq port (Some TheWindow) win listen_ok) as Hc.
  rewrite Hwin in Hc. cbn [non_null andb] in Hc.
  destruct (run_Inv ops _ (construct_Inv _ _ _ _ _ Hc)) as (w & Hrun & _).
  destruct (quiet_run ops _ _ _ Hrun) as (Hl & evs & Ht & Hevs).
  eexists _, w, evs. split; [exact Hc|]. cbn [trace qt listening] in *.
  split_and!; try done.
  - by apply (exec_eq _ _ tt).
  - intros -> Hext.
    match type of Hrun with
    | run _ ?w0 = _ =>
        destruct (external_run_dormant ops w0 Hext)
          as (w' & Hrun' & Hs & Ht' & Hd & _); [by split_and!|]
    end.
    rewrite Hrun in Hrun'. injection Hrun' as <-. split_and!; [done| |done].
    rewrite Ht' in Ht. cbn in Ht. by destruct evs.
Qed.

Lemma addClient_threads fd sender w w' :
  addClient fd sender w = Some (tt, w') →
  m_threads (server w') = m_threads (server w) ++ [fresh (dom (heap (qt w)))].
Proof.
  destruct w as [[mw mc ths g fb mx] [win hp slots nc lst] tr].
  rewrite addClient_eq. by intros [= <-].
Qed.

Lemma removeClient_threads sender w w' :
  removeClient sender w = Some (tt, w') →
  m_threads (server w')
  = match qobject_cast_QThread sender with
    | Some p => removeOne p (m_threads (server w))
    | None => m_threads (server w)
    end.
Proof.
  destruct (qobject_cast_QThread sender) as [p|] eqn:Hcast.
  - assert (sender = Some (ObjThread p)) as ->.
    { destruct sender as [[]|]; cbn in Hcast; congruence. }
    destruct w as [[mw mc ths g fb mx] [win hp slots nc lst] tr].
    rewrite removeClient_eq. by intros [= <-].
  - unfold removeClient. rewrite Hcast. by intros [= <-].
Qed.

Lemma conn_step_count c w :
  Inv w →
  ∃ w', step (conn_op c) w = Some (tt, w') ∧ Inv w'
    ∧ (length (m_threads (server w')) + (if matches c w then 1 else 0)
       = length (m_threads (server w)) + (if is_add c then 1 else 0))%nat.
Proof.
  intros HI. destruct (step_Inv (conn_op c) w HI) as (w' & Hstep & HI').
  exists w'. split_and!; [done..|].
  destruct c as [fd sender|sender]; cbn in *.
  - rewrite (addClient_threads _ _ _ _ Hstep), length_app. cbn. lia.
  - rewrite (removeClient_threads _ _ _ Hstep).
    destruct (qobject_cast_QThread sender) as [p|]; [|lia].
    case_bool_decide as Hp.
    + rewrite <- (removeOne_length p (m_threads (server w))) by done. lia.
    + by rewrite removeOne_notin.
Qed.

Lemma conn_run_count ops w :
  Inv w →
  ∃ w', run (conn_op <$> ops) w = Some (tt, w') ∧ Inv w'
    ∧ (length (m_threads (server w')) + count_matched ops w
       = length (m_threads (server w)) + count_adds ops)%nat.
Proof.
  revert w. induction ops as [|c ops IH]; intros w HI.
  - exists w. split_and!; [done..|]. cbn. lia.
  - destruct (conn_step_count c w HI) as (w1 & Hstep & HI1 & Hn1).
    destruct (IH w1 HI1) as (w2 & Hrun & HI2 & Hn2).
    exists w2. split_and!; [|done|].
    + unfold run in *. cbn [fmap list_fmap for_each].
      by rewrite (bind_eq _ _ _ _ _ Hstep).
    + cbn [count_matched]. rewrite (exec_eq _ _ _ _ Hstep).
      unfold count_adds in *. rewrite filter_cons.
      destruct c; cbn [is_add] in *.
      * rewrite decide_True by done. cbn [length]. lia.
      * rewrite decide_False by done. lia.
Qed.

Lemma run_app ops1 ops2 w :
  run (ops1 ++ ops2) w = (run ops1;; run ops2) w.
Proof.
  unfold run. revert w. induction ops1 as [|op ops1 IH]; intros w; [done|].
  cbn [app for_each]. unfold mbind, M_bind in *.
  destruct (step op w) as [[[] w1]|]; [apply IH|done].
Qed.

Lemma member_origin ops w0 w q :
  Inv w0 → m_threads (server w0) = [] →
  run (conn_op <$> ops) w0 = Some (tt, w) →
  q ∈ m_threads (server w) →
  ∃ pre fd sender post,
    ops = pre ++ Add fd sender :: post
    ∧ created pre w0 = Some q
    ∧ Remove (Some (ObjThread q)) ∉ post.
Proof.
  intros HI0 Hempty. revert w.
  induction ops as [|c ops IH] using rev_ind; intros w Hrun Hq.
  - injection Hrun as <-. rewrite Hempty in Hq. by apply elem_of_nil in Hq.
  - rewrite fmap_app, run_app in Hrun.
    destruct (conn_run_count ops w0 HI0) as (w1 & Hrun1 & HI1 & _).
    rewrite (bind_eq _ _ _ _ _ Hrun1) in Hrun. cbn [fmap list_fmap] in Hrun.
    unfold run in Hrun. cbn [for_each] in Hrun.
    destruct (step_Inv (conn_op c) w1 HI1) as (w2 & Hstep & HI2).
    rewrite (bind_eq _ _ _ _ _ Hstep) in Hrun. injection Hrun as <-.
    destruct c as [fd sender|sender]; cbn [conn_op step] in Hstep.
    + rewrite (addClient_threads _ _ _ _ Hstep) in Hq.
      apply elem_of_app in Hq as [Hq| ->%list_elem_of_singleton].
      * destruct (IH w1 Hrun1 Hq) as (pre & fd' & sender' & post & -> & Hc & Hpost).
        exists pre, fd', sender', (post ++ [Add fd sender]).
        split_and!; [by rewrite <- app_assoc|done|].
        intros [?| [=]%list_elem_of_singleton]%elem_of_app. done.
      * exists ops, fd, sender, []. split_and!; [done| |by intros ?%elem_of_nil].
        unfold created. by rewrite (exec_eq _ _ _ _ Hrun1).
    + rewrite (removeClient_threads _ _ _ Hstep) in Hq.
      assert (q ∈ m_threads (server w1) ∧ sender ≠ Some (ObjThread q)) as [Hq1 Hs].
      { destruct (qobject_cast_QThread sender) as [p|] eqn:Hcast.
        - split; [by apply removeOne_elem in Hq|]. intros ->.
          injection Hcast as <-.
          by apply (removeOne_NoDup q _ (inv_nodup _ HI1)).
        - split; [done|]. by intros ->. }
      destruct (IH w1 Hrun1 Hq1) as (pre & fd' & sender' & post & -> & Hc & Hpost).
      exists pre, fd', sender', (post ++ [Remove sender]).
      split_and!; [by rewrite <- app_assoc|done|].
      intros [?| [=]%list_elem_of_singleton]%elem_of_app; done.
Qed.

(** C9.  After any sequence of [addClient] and [removeClient] invocations
    on a newly constructed server, the size of the connection set is the
    number of [addClient]s minus the number of [removeClient]s whose sender
    was in the set, the set is empty when every thread added was the
    sender of a later [removeClient], and no thread is in the set twice. *)
Theorem connection_count port window win listen_ok w0 (ops : list ConnOp) :
  construct port window win listen_ok = Some w0 →
  ∃ w, exec (run (conn_op <$> ops)) w0 = Some w
    ∧ (count_matched ops w0 ≤ count_adds ops)%nat
    ∧ length (m_threads (server w)) = (count_adds ops - count_matched ops w0)%nat
    ∧ (all_removed ops w0 → m_threads (server w) = [])
    ∧ NoDup (m_threads (server w)).
Proof.
  intros Hc. pose proof (construct_Inv _ _ _ _ _ Hc) as HI0.
  assert (m_threads (server w0) = []) as Hempty.
  { rewrite construct_eq in Hc. destruct (_ && _); [|done]. by injection Hc as <-. }
  destruct (conn_run_count ops w0 HI0) as (w & Hrun & HI & Hn).
  rewrite Hempty in Hn. cbn in Hn.
  exists w. split_and!; [by apply (exec_eq _ _ tt)|lia|lia| |by apply inv_nodup].
  intros Hall. destruct (m_threads (server w)) as [|q ths] eqn:Hths; [done|].
  destruct (member_origin ops w0 w q HI0 Hempty Hrun)
    as (pre & fd & sender & post & Hops & Hcr & Hpost).
  { rewrite Hths. by left. }
  destruct Hpost. by apply (Hall pre fd sender post q).
Qed.


Lemma capture_steps w :
  iterate 6 capture_step C216 w = (updateFrameBuffer;; mret CaptureDone) w.
Proof.
  destruct w as [[mw mc ths g fb mx] [win hp slots nc lst] tr].
  cbv [iterate capture_step]. sim.
  destruct mx; [done|]. destruct mw as [[]|]; [|done].
  destruct (bool_decide _); sim;
    match goal with
    | |- context [for_each ?l ?f ?w] => by destruct (for_each l f w) as [[[] ?]|]
    end.
Qed.

Lemma read_steps w :
  iterate 3 read_step R252 w = (fb ← frameBuffer; mret (Returned fb)) w.
Proof.
  destruct w as [[mw mc ths g fb mx] e tr].
  cbv [iterate read_step]. sim. by destruct mx.
Qed.

Lemma notify_server ths w w' :
  for_each ths markDirty w = Some (tt, w') → server w' = server w.
Proof.
  revert w. induction ths as [|p ths IH]; intros w; cbn [for_each].
  - by intros [= <-].
  - unfold mbind, M_bind. destruct (markDirty p w) as [[[] w1]|] eqn:Hp; [|done].
    intros Hrest. rewrite (IH _ Hrest).
    revert Hp. unfold markDirty, ClientThread_markDirty. sim.
    destruct (_ !! p) as [t|]; [|done]. destruct (m_client t); by intros [= <-].
Qed.

Lemma move_Exclusive m c c' owner :
  Exclusive c owner → move m c = Some c' → ∃ owner', Exclusive c' owner'.
Proof.
  intros [Hmx Hcap Hrd Hown Hst Hcp] Hmove.
  destruct c as [w k rs rel]. cbn [world capture readers released] in *.
  destruct m as [|i| | |size ratio|]; cbn [move world capture readers released] in Hmove.
  - (* the capture moves *)
    destruct (capture_step k w) as [[k' w']|] eqn:Hstep; [|done].
    injection Hmove as <-.
    destruct w as [[mw mc ths g fb mx] [win hp slots nc lst] tr].
    cbn [server m_frameBufferMutex m_frameBuffer] in *.
    destruct k; cbn [capture_step] in Hstep; cbn [capture_holds] in *.
    + (* lock *)
      revert Hstep. sim. destruct mx; [done|]. intros [= <- <-].
      symmetry in Hmx. apply bool_decide_eq_false, dec_stable in Hmx. subst owner.
      exists (Some OwnerCapture). split; cbn; done.
    + revert Hstep. sim. destruct mw as [[]|]; [|done].
      destruct (bool_decide (_ ≠ img_size _)); sim; intros [= <- <-];
        exists owner; split; cbn; done.
    + revert Hstep. sim. intros [= <- <-]. exists owner; split; cbn; done.
    + revert Hstep. sim. intros [= <- <-]. exists owner; split; cbn; done.
    + (* unlock *)
      revert Hstep. sim. intros [= <- <-].
      symmetry in Hcap. apply bool_decide_eq_true in Hcap. subst owner.
      exists None. split; cbn; try done.
      intros i r fb' Hr Hc. right. by apply (Hcp i r).
    + revert Hstep. sim.
      match goal with
      | |- context [for_each ?l ?f ?w] =>
          destruct (for_each l f w) as [[[] w1]|] eqn:Hn; [|done]
      end.
      intros [= <- <-]. apply notify_server in Hn. cbn in Hn.
      exists owner. split; cbn; rewrite ?Hn; cbn; done.
    + injection Hstep as <- <-. exists owner. by split.
  - (* a reader moves *)
    destruct (rs !! i) as [r|] eqn:Hi; [|done].
    destruct (read_step r w) as [[r' w']|] eqn:Hstep; [|done].
    injection Hmove as <-.
    destruct w as [[mw mc ths g fb mx] e tr].
    cbn [server m_frameBufferMutex m_frameBuffer] in *.
    pose proof (Hrd i r Hi) as Hri.
    assert (i < length rs)%nat as Hlen by (by eapply lookup_lt_Some).
    destruct r; cbn [read_step] in Hstep; cbn [reader_holds] in Hri.
    + (* lock *)
      revert Hstep. sim. destruct mx; [done|]. intros [= <- <-].
      symmetry in Hmx. apply bool_decide_eq_false, dec_stable in Hmx. subst owner.
      exists (Some (OwnerReader i)). split; cbn; try done.
      * intros j r [(<- & <- & _)|[Hne Hr]]%list_lookup_insert_Some.
        -- by rewrite bool_decide_true.
        -- rewrite (Hrd j r Hr). rewrite !bool_decide_false; [done|congruence|done].
      * intros j [= <-]. by rewrite list_lookup_insert_eq.
      * intros j r fb' [(<- & <- & _)|[Hne Hr]]%list_lookup_insert_Some Hc; [done|].
        by apply (Hcp j r).
    + (* the copy *)
      revert Hstep. sim. intros [= <- <-].
      symmetry in Hri. apply bool_decide_eq_true in Hri. subst owner.
      rewrite bool_decide_false in Hcap by done.
      specialize (Hst Hcap).
      exists (Some (OwnerReader i)). split; cbn; try done.
      * intros j r [(<- & <- & _)|[Hne Hr]]%list_lookup_insert_Some.
        -- by rewrite bool_decide_true.
        -- by apply Hrd.
      * intros j [= <-]. by rewrite list_lookup_insert_eq.
      * intros j r fb' [(<- & <- & _)|[Hne Hr]]%list_lookup_insert_Some Hc.
        -- injection Hc as <-. destruct rel; [done|]. injection Hst as ->. by left.
        -- by apply (Hcp j r).
    + (* unlock *)
      revert Hstep. sim. intros [= <- <-].
      symmetry in Hri. apply bool_decide_eq_true in Hri. subst owner.
      exists None. split; cbn; try done.
      * intros j r [(<- & <- & _)|[Hne Hr]]%list_lookup_insert_Some; [done|].
        rewrite (Hrd j r Hr). rewrite bool_decide_false; [done|congruence].
      * intros j r fb' [(<- & <- & _)|[Hne Hr]]%list_lookup_insert_Some Hc.
        -- injection Hc as <-. by apply (Hcp i (R255 fb0)).
        -- by apply (Hcp j r).
    + injection Hstep as <- <-. rewrite list_insert_id by done.
      exists owner. by split.
  - destruct k; try done. injection Hmove as <-.
    exists owner. by split.
  - injection Hmove as <-. exists owner. split; cbn; try done.
    + intros i r [Hr|[Hge Hr]]%lookup_app_Some; [by apply Hrd|].
      destruct (i - length rs)%nat eqn:Hd; [|done]. injection Hr as <-. cbn.
      symmetry. apply bool_decide_false. intros ->.
      destruct (Hown i eq_refl) as [r Hi]. apply lookup_lt_Some in Hi. lia.
    + intros i Ho. destruct (Hown i Ho) as [r Hr]. exists r.
      by apply lookup_app_l_Some.
    + intros i r fb' [Hr|[Hge Hr]]%lookup_app_Some Hc; [by apply (Hcp i r)|].
      destruct (i - length rs)%nat; [|done]. by injection Hr as <-.
  - injection Hmove as <-. exists owner. by split.
  - injection Hmove as <-. exists owner. by split.
Qed.


Lemma initial_Exclusive w :
  m_frameBufferMutex (server w) = false → Exclusive (initial w) None.
Proof.
  intros Hmx. by split.
Qed.

Lemma moves_Exclusive ms c c' owner :
  Exclusive c owner → moves ms c = Some c' → ∃ owner', Exclusive c' owner'.
Proof.
  revert c owner. induction ms as [|m ms IH]; intros c owner He; cbn [moves].
  - intros [= <-]. by exists owner.
  - destruct (move m c) as [c1|] eqn:Hm; [|done].
    destruct (move_Exclusive m c c1 owner He Hm) as [owner1 He1].
    by apply (IH c1 owner1).
Qed.

Lemma move_Returned m c c' i fb :
  readers c !! i = Some (Returned fb) → move m c = Some c' →
  readers c' !! i = Some (Returned fb).
Proof.
  intros Hi. destruct m as [|j| | |size ratio|]; cbn [move].
  - destruct (capture_step _ _) as [[k w]|]; [|done]. by intros [= <-].
  - destruct (readers c !! j) as [r|] eqn:Hj; [|done].
    destruct (read_step r (world c)) as [[r' w]|] eqn:Hstep; [|done].
    intros [= <-]. cbn. destruct (decide (j = i)) as [->|Hne].
    + rewrite Hi in Hj. injection Hj as <-. injection Hstep as <- _.
      by rewrite list_insert_id.
    + by rewrite list_lookup_insert_ne.
  - destruct (capture c); try done. by intros [= <-].
  - intros [= <-]. cbn. by apply lookup_app_l_Some.
  - by intros [= <-].
  - by intros [= <-].
Qed.

Lemma moves_Returned ms c c' i fb :
  readers c !! i = Some (Returned fb) → moves ms c = Some c' →
  readers c' !! i = Some (Returned fb).
Proof.
  revert c. induction ms as [|m ms IH]; intros c Hi; cbn [moves].
  - by intros [= <-].
  - destruct (move m c) as [c1|] eqn:Hm; [|done].
    apply IH. by apply (move_Returned m c).
Qed.

(** C6.  On a reachable server [frameBuffer] takes the lock, copies
    [m_frameBuffer], releases the lock and returns the copy, changing
    nothing else.  With captures and reads interleaved statement by
    statement in any way: no reader is inside its locked scope while the
    capture is inside its own; what a reader returns is the buffer as it
    was when a capture released the lock (or at the start), never a buffer
    a capture was writing; and no later capture changes the value
    returned. *)
Theorem frameBuffer_copies_under_lock w :
  reachable w →
  frameBuffer w
  = Some (m_frameBuffer (server w),
          mkWorld (server w) (qt w) (trace w ++ [EvLock; EvUnlock]))
  ∧ ∀ ms c,
      moves ms (initial w) = Some c →
      (∀ i r, readers c !! i = Some r → reader_holds r = true →
              capture_holds (capture c) = false)
      ∧ ∀ i fb,
          readers c !! i = Some (Returned fb) →
          fb ∈ released c
          ∧ ∀ ms' c', moves ms' c = Some c' →
                      readers c' !! i = Some (Returned fb).
Proof.
  intros HI%reachable_Inv. split.
  - destruct w as [[mw mc ths g fb mx] e tr].
    pose proof (inv_mutex _ HI) as Hmx. cbn in Hmx. subst mx.
    apply frameBuffer_eq.
  - intros ms c Hms.
    destruct (moves_Exclusive ms _ c None (initial_Exclusive w (inv_mutex _ HI)) Hms)
      as [owner He].
    split.
    + intros i r Hi Hr. rewrite (excl_reader _ _ He i r Hi) in Hr.
      apply bool_decide_eq_true in Hr. rewrite (excl_capture _ _ He), Hr.
      by apply bool_decide_false.
    + intros i fb Hi. split; [by apply (excl_copies _ _ He i (Returned fb))|].
      intros ms' c'. by apply moves_Returned.
Qed.

(** ** Further properties *)

Lemma run_preserves (P : World → Prop) :
  (∀ op w w', Inv w → P w → step op w = Some (tt, w') → P w') →
  ∀ ops w w', Inv w → P w → run ops w = Some (tt, w') → P w'.
Proof.
  intros Hstep ops. induction ops as [|op ops IH]; intros w w' HI HP Hrun.
  - by injection Hrun as <-.
  - destruct (step_Inv op w HI) as (w1 & Hop & HI1).
    unfold run in Hrun. cbn [for_each] in Hrun.
    rewrite (bind_eq _ _ _ _ _ Hop) in Hrun.
    apply (IH w1 w' HI1); [|done]. by apply (Hstep op w).
Qed.

Lemma reachable_preserves (P : World → Prop) :
  (∀ port window win listen_ok w0,
     construct port window win listen_ok = Some w0 → P w0) →
  (∀ op w w', Inv w → P w → step op w = Some (tt, w') → P w') →
  ∀ w, reachable w → P w.
Proof.
  intros Hinit Hstep w (port & window & win & ok & w0 & ops & Hc & Hr).
  pose proof (construct_Inv _ _ _ _ _ Hc) as HI0.
  destruct (run_Inv ops w0 HI0) as (w' & Hrun & _).
  unfold exec in Hr. rewrite Hrun in Hr. injection Hr as <-.
  apply (run_preserves P Hstep ops w0 w' HI0); [|done]. by eapply Hinit.
Qed.

(** [keeps], compositionally. *)
Lemma keeps_ret {A B} (f : World → B) (a : A) : keeps f (mret a).
Proof. by intros w a' w' [= _ <-]. Qed.

Lemma keeps_bind {A B C} (f : World → C) (m : M A) (k : A → M B) :
  keeps f m → (∀ a, keeps f (k a)) → keeps f (m ≫= k).
Proof.
  intros Hm Hk w b w2 Hrun. unfold mbind, M_bind in Hrun.
  destruct (m w) as [[a w1]|] eqn:Hm1; [|done].
  rewrite (Hk a _ _ _ Hrun). by eapply Hm.
Qed.

Lemma keeps_gets {A B} (f : World → B) (g : World → A) : keeps f (gets g).
Proof. by intros w a w' [= _ <-]. Qed.

Lemma keeps_crash {A B} (f : World → B) : keeps f (crash : M A).
Proof. by intros w a w' [=]. Qed.

Lemma keeps_modify {B} (f : World → B) g :
  (∀ w, f (g w) = f w) → keeps f (modify g).
Proof. intros Hg w a w' [= <- <-]. apply Hg. Qed.

Lemma keeps_when {B} (f : World → B) b m : keeps f m → keeps f (when b m).
Proof. destruct b; [done|]. intros _. apply keeps_ret. Qed.

Lemma keeps_for_each {A B} (f : World → B) (l : list A) body :
  (∀ x, keeps f (body x)) → keeps f (for_each l body).
Proof.
  intros Hb. induction l as [|x l IH]; [apply keeps_ret|].
  cbn [for_each]. by apply keeps_bind.
Qed.

Lemma keeps_new_ClientThread {B} (f : World → B) fd :
  (∀ s e tr h tr', f (mkWorld s (set_heap h e) tr') = f (mkWorld s e tr)) →
  keeps f (new_ClientThread fd).
Proof. intros Hf [s e tr] a w' [= <- <-]. apply Hf. Qed.

Ltac keeps_step :=
  first
    [ apply keeps_ret | apply keeps_gets | apply keeps_crash
    | apply keeps_new_ClientThread; intros ? [] ? ? ?; reflexivity
    | apply keeps_modify; intros [[] [] ?]; reflexivity
    | apply keeps_when
    | apply keeps_for_each; intros ?
    | apply keeps_bind; [|intros ?]
    | match goal with
      | |- keeps _ (match ?x with _ => _ end) => destruct x
      end
    | progress unfold ClientThread_markDirty, emit ].

Lemma step_keeps_cursor op : keeps (λ w, m_cursor (server w)) (step op).
Proof.
  destruct op; cbn [step];
    unfold addClient, removeClient, updateFrameBuffer, frameBuffer, grabWindow,
      markDirty, incomingConnection, thread_finished, emit_frameSwapped,
      alter_thread, upd_qt, upd_server, emit;
    repeat keeps_step.
Qed.

(** X1.  On every reachable server [cursor()] returns the arrow cursor
    the constructor made with [createCursor( Qt::ArrowCursor )] and
    [window()] returns the window the constructor was given; neither call
    changes anything, and no operation ever changes what they return. *)
Theorem accessors_constant w :
  reachable w →
  cursor w = Some (createCursor ArrowCursor, w)
  ∧ window w = Some (Some TheWindow, w).
Proof.
  intros Hr. split.
  - unfold cursor, gets. do 2 f_equal. revert w Hr.
    apply reachable_preserves.
    + intros port window win ok w0. rewrite construct_eq.
      destruct (_ && _); [|done]. by intros [= <-].
    + intros op w w' _ HP Hstep. by rewrite (step_keeps_cursor op _ _ _ Hstep).
  - unfold window, gets. do 2 f_equal. by apply inv_window, reachable_Inv.
Qed.

Lemma step_keeps_buffer op :
  captures op = false → keeps (λ w, m_frameBuffer (server w)) (step op).
Proof.
  destruct op; try discriminate; intros _; cbn [step];
    unfold addClient, removeClient, frameBuffer,
      incomingConnection, thread_finished,
      alter_thread, upd_qt, upd_server, emit;
    repeat keeps_step.
Qed.

(** Eleven operations, five kinds of effect. *)
Lemma step_cases op w w' :
  Inv w → step op w = Some (tt, w') →
  (∃ fd sender, addClient fd sender w = Some (tt, w'))
  ∨ (∃ p, removeClient (Some (ObjThread p)) w = Some (tt, w'))
  ∨ updateFrameBuffer w = Some (tt, w')
  ∨ (∃ o p, w' = mkWorld (server w)
                   (set_heap (alter (λ t, thread_step t o) p (heap (qt w)))
                      (qt w))
                   (trace w))
  ∨ (server w' = server w ∧ heap (qt w') = heap (qt w)
     ∧ frameSwapped_slots (qt w') = frameSwapped_slots (qt w)).
Proof.
  intros HI.
  destruct op as [fd sender|sender| | |fd|p|p|p| |size ratio|]; cbn [step].
  - intros Hs. left. by exists fd, sender.
  - destruct (qobject_cast_QThread sender) as [p|] eqn:Hcast.
    + assert (sender = Some (ObjThread p)) as ->.
      { destruct sender as [[]|]; cbn in Hcast; congruence. }
      intros Hs. right; left. by exists p.
    + unfold removeClient. rewrite Hcast. intros [= <-]. by do 4 right.
  - intros Hs. by do 2 right; left.
  - destruct w as [[mw mc ths g fb mx] e tr].
    pose proof (inv_mutex _ HI) as Hmx. cbn in Hmx. subst mx.
    rewrite (bind_eq _ _ _ _ _ (frameBuffer_eq _ _ _ _ _ _ _)).
    intros [= <-]. by do 4 right.
  - unfold incomingConnection, mbind, M_bind, gets, when, non_null.
    destruct (listening (qt w)).
    + intros Hs. left. by exists fd, (Some ObjTcpServer).
    + intros [= <-]. by do 4 right.
  - intros [= <-]. do 3 right; left. by exists TRuns, p.
  - unfold thread_finished, mbind, M_bind, gets, when.
    destruct (heap (qt w) !! p) as [t|]; [|intros [= <-]; by do 4 right].
    destruct (bool_decide _ && _).
    + intros Hs. right; left. by exists p.
    + intros [= <-]. by do 4 right.
  - intros [= <-]. do 3 right; left. by exists TDisconnected, p.
  - unfold emit_frameSwapped, mbind, M_bind, gets.
    pose proof (inv_subscription _ HI) as Hsub.
    destruct (m_grabConnectionId (server w)) as [id|];
      destruct Hsub as [Hslots _]; rewrite Hslots; cbn [for_each snd].
    + unfold mbind, M_bind.
      destruct (updateFrameBuffer w) as [[[] w1]|] eqn:Hu; [|done].
      intros [= <-]. by do 2 right; left.
    + intros [= <-]. by do 4 right.
  - intros [= <-]. do 4 right. by destruct w as [s [] tr].
  - intros [= <-]. do 4 right. by destruct w as [s [] tr].
Qed.

Lemma updateFrameBuffer_effect w w' :
  Inv w → updateFrameBuffer w = Some (tt, w') →
  server w'
  = set_frameBuffer (captured (app_window (qt w)) (m_frameBuffer (server w)))
      (server w)
  ∧ qt w' = qt w.
Proof.
  destruct w as [[mw mc ths g fb mx] [win hp slots nc lst] tr].
  intros [Hw Hnd Hlive Hthr Hsub Hmx]. cbn in Hw, Hlive, Hmx. subst mw mx.
  rewrite updateFrameBuffer_eq by done. by intros [= <-].
Qed.


Lemma captured_size win fb :
  img_size (captured win fb) = QSize_times (win_size win) (devicePixelRatio win).
Proof.
  unfold captured. rewrite convertTo_size. cbn.
  case_bool_decide as Hd; [done|]. congruence.
Qed.


Lemma captured_idem win fb : captured win (captured win fb) = captured win fb.
Proof.
  unfold captured at 1. rewrite captured_size.
  rewrite bool_decide_false by (by intros ?).
  unfold captured. rewrite !convertTo_size. cbn [img_size].
  case_bool_decide as Hd; cbn [img_size img_format QImage_new].
  - unfold convertTo. cbn. repeat case_decide; cbn; try done;
      repeat case_decide; cbn; congruence.
  - destruct fb as [sz fmt dat]. unfold convertTo. cbn.
    repeat case_decide; cbn; try done; repeat case_decide; cbn; congruence.
Qed.


(** X3.  [updateFrameBuffer] twice in a row, the window unchanged in
    between: the second capture leaves the server as the first one left
    it (same buffer, same set, same subscription) and allocates no buffer,
    the size test of line 219 failing. *)
Theorem capture_twice w :
  reachable w →
  ∃ w1 w2,
    exec updateFrameBuffer w = Some w1
    ∧ exec updateFrameBuffer w1 = Some w2
    ∧ server w2 = server w1
    ∧ qt w2 = qt w1
    ∧ allocations (drop (length (trace w1)) (trace w2)) = [].
Proof.
  intros HI%reachable_Inv.
  destruct (updateFrameBuffer_Inv w HI) as (w1 & Hu1 & HI1).
  destruct (updateFrameBuffer_effect w w1 HI Hu1) as [Hs1 Hq1].
  destruct (updateFrameBuffer_Inv w1 HI1) as (w2 & Hu2 & HI2).
  destruct (updateFrameBuffer_effect w1 w2 HI1 Hu2) as [Hs2 Hq2].
  exists w1, w2. split_and!; [by apply (exec_eq _ _ tt)..| | |].
  - rewrite Hs2, Hq1, Hs1. destruct (server w); cbn. by rewrite captured_idem.
  - done.
  - destruct w1 as [[mw mc ths g fb mx] [win hp slots nc lst] tr].
    pose proof HI1 as [Hw _ Hlive _ _ Hmx]. cbn in Hw, Hlive, Hmx. subst mw mx.
    rewrite updateFrameBuffer_eq in Hu2 by done. injection Hu2 as <-.
    cbn [trace]. rewrite drop_app_length.
    assert (fb = captured (app_window (qt w)) (m_frameBuffer (server w))) as ->.
    { pose proof (f_equal m_frameBuffer Hs1) as Hfb. exact Hfb. }
    cbn in Hq1. rewrite <- Hq1. cbn [app_window].
    rewrite captured_size, bool_decide_false by (by intros ?).
    unfold allocations. cbn [app]. rewrite !filter_cons.
    cbn [is_allocation]. rewrite !decide_False by done. clear.
    induction ths as [|p ths IH]; [done|]. cbn [flat_map].
    rewrite filter_app, IH. unfold dirty_events.
    by destruct (hp !! p) as [t|]; [destruct (m_client t)|].
Qed.

(** ** The thread objects and the set *)

Lemma thread_step_in_service t o : in_service t → in_service (thread_step t o).
Proof.
  destruct t as [fd mcl cl k q f]. unfold in_service. cbn.
  intros [-> Hk]. by destruct o, k, q, cl.
Qed.

Lemma step_tidy op w w' : Inv w → tidy w → step op w = Some (tt, w') → tidy w'.
Proof.
  intros HI [Hdom Hsrv] Hstep.
  destruct (step_cases op w w' HI Hstep)
    as [(fd & sender & Ha)|[(p & Hr)|[Hu|[(o & p & ->)|(Hs & Hh & _)]]]].
  - destruct w as [[mw mc ths g fb mx] [win hp slots nc lst] tr].
    rewrite addClient_eq in Ha. injection Ha as <-.
    unfold tidy. cbn [server qt m_threads heap] in *. split.
    + intros q. rewrite elem_of_app, list_elem_of_singleton, lookup_insert_is_Some.
      rewrite Hdom. destruct (decide (fresh (dom hp) = q)) as [->|Hne].
      * split; [by left|by right].
      * split; [intros [Hq|Hq]; [by right|done]|intros [Hq|[_ Hq]]; [done|by left]].
    + intros q t [[_ <-]|[_ Hq]]%lookup_insert_Some; [by split|].
      by apply (Hsrv q).
  - destruct w as [[mw mc ths g fb mx] [win hp slots nc lst] tr].
    rewrite removeClient_eq in Hr. injection Hr as <-.
    pose proof (inv_nodup _ HI) as Hnd.
    unfold tidy. cbn [server qt m_threads heap] in *.
    destruct (removeOne_NoDup p ths Hnd) as [_ Hp]. split.
    + intros q. rewrite lookup_delete_is_Some, lookup_alter_is_Some, <- Hdom.
      split.
      * intros Hq. split; [by intros ->|]. by apply (removeOne_elem p).
      * intros [Hne Hq]. by apply removeOne_elem_ne.
    + intros q t [Hne Hq]%lookup_delete_Some.
      rewrite lookup_alter_ne in Hq by done. by apply (Hsrv q).
  - destruct (updateFrameBuffer_effect w w' HI Hu) as [Hs Hq].
    unfold tidy. rewrite Hs, Hq. by destruct (server w).
  - unfold tidy. cbn [server qt m_threads]. destruct (qt w) as [win hp slots nc lst].
    cbn [heap set_heap] in *. split.
    + intros q. by rewrite lookup_alter_is_Some.
    + intros q t Hq. destruct (decide (p = q)) as [->|Hne].
      * rewrite lookup_alter_eq in Hq.
        destruct (hp !! q) as [t0|] eqn:Hq0; [|done]. injection Hq as <-.
        apply thread_step_in_service. by apply (Hsrv q).
      * rewrite lookup_alter_ne in Hq by done. by apply (Hsrv q).
  - unfold tidy. by rewrite Hs, Hh.
Qed.

Lemma reachable_tidy w : reachable w → tidy w.
Proof.
  revert w. apply reachable_preserves.
  - intros port window win ok w0. rewrite construct_eq.
    destruct (_ && _); [|done]. intros [= <-]. split.
    + intros p. cbn. rewrite lookup_empty. split; [by intros ?%elem_of_nil|].
      by intros [? [=]].
    + intros p t. cbn. by rewrite lookup_empty.
  - intros op w w'. apply step_tidy.
Qed.

(** X4.  On every reachable server the live [ClientThread] objects are
    exactly the members of [m_threads]: no pointer of the set dangles and
    no thread object is left behind by [removeClient]; and every one of
    them has been started with its [finished] signal connected to
    [removeClient]. *)
Theorem threads_are_the_live_objects w p :
  reachable w →
  (p ∈ m_threads (server w) ↔ is_Some (heap (qt w) !! p))
  ∧ ∀ t, heap (qt w) !! p = Some t →
         finished_to_removeClient t = true ∧ pc t ≠ NotStarted
         ∧ ∃ fd ops, t = thread_after fd ops.
Proof.
  intros Hr. destruct (reachable_tidy w Hr) as [Hdom Hsrv]. split; [done|].
  intros t Ht. destruct (Hsrv p t Ht). split_and!; [done..|].
  by apply (inv_threads _ (reachable_Inv w Hr) p).
Qed.

Lemma run_to_end t :
  thread_ok t → in_service t →
  let t' := run_step (run_step (run_step (client_disconnected
              (run_step (run_step t))))) in
  pc t' = Done ∧ finished_to_removeClient t' = true.
Proof.
  destruct t as [fd mcl cl k q f]. unfold thread_ok, in_service. cbn.
  destruct k, q; cbn; intros [-> ->] [-> ?]; by cbn.
Qed.

Lemma finishing_run_any p s win hp slots nc lst tr :
  run (finishing p) (mkWorld s (mkQtEnv win hp slots nc lst) tr)
  = (thread_finished p;; mret tt)
      (mkWorld s
         (mkQtEnv win
            (alter run_step p (alter run_step p (alter run_step p
               (alter client_disconnected p
                  (alter run_step p (alter run_step p hp))))))
            slots nc lst) tr).
Proof. reflexivity. Qed.

Lemma then_ret (m : M unit) w : (m;; mret tt) w = m w.
Proof. unfold mbind, M_bind. by destruct (m w) as [[[] ?]|]. Qed.

Lemma thread_finished_done p t w :
  heap (qt w) !! p = Some t → pc t = Done → finished_to_removeClient t = true →
  thread_finished p w = removeClient (Some (ObjThread p)) w.
Proof.
  intros Hp Hpc Hf. unfold thread_finished, mbind, M_bind, gets.
  by rewrite Hp, Hpc, Hf, bool_decide_true.
Qed.

Lemma finishing_eq p t mw mc ths g fb mx win hp slots nc lst tr :
  hp !! p = Some t → thread_ok t → in_service t →
  let ths' := removeOne p ths in
  let last := bool_decide (ths' = []) && non_null g in
  ∃ hp' evs,
    run (finishing p)
      (mkWorld (mkVncServer mw mc ths g fb mx) (mkQtEnv win hp slots nc lst) tr)
    = Some (tt,
        mkWorld (mkVncServer mw mc ths' (if last then None else g) fb mx)
          (mkQtEnv win (delete p hp')
             (match g with
              | Some id => if last then filter (λ c, c.1 ≠ id) slots else slots
              | None => slots
              end) nc lst)
          (tr ++ evs))
    ∧ ∀ q, q ≠ p → hp' !! q = hp !! q.
Proof.
  intros Hp Hok Hsrv ths' last.
  destruct (run_to_end t Hok Hsrv) as [Hpc Hfin].
  eexists _, _. split.
  - rewrite finishing_run_any, then_ret.
    erewrite thread_finished_done; [apply removeClient_eq| |exact Hpc|exact Hfin].
    cbn [qt heap]. by rewrite !lookup_alter_eq, Hp.
  - intros q Hne. by rewrite !lookup_alter_ne.
Qed.

(** X5.  Whatever a thread of the set has done so far, once it runs on,
    its client disconnects and [finished] is delivered, [removeClient]
    takes it out of the set and deletes it; the other thread objects are
    as before, and the subscription is still active exactly when viewers
    remain. *)
Theorem teardown_from_any_state w p :
  reachable w → p ∈ m_threads (server w) →
  ∃ w', exec (run (finishing p)) w = Some w'
        ∧ m_threads (server w') = removeOne p (m_threads (server w))
        ∧ (p ∉ m_threads (server w'))
        ∧ heap (qt w') !! p = None
        ∧ (∀ q, q ≠ p → heap (qt w') !! q = heap (qt w) !! q)
        ∧ (subscribed w' = true ↔ m_threads (server w') ≠ []).
Proof.
  intros Hr Hp. pose proof (reachable_Inv w Hr) as HI.
  destruct (reachable_tidy w Hr) as [Hdom Hsrv].
  destruct (run_Inv (finishing p) w HI) as (w' & Hrun & HI').
  exists w'. split; [by apply (exec_eq _ _ tt)|].
  split_and!; [| | | |by apply subscribed_iff]; clear HI'; revert Hrun;
    destruct w as [[mw mc ths g fb mx] [win hp slots nc lst] tr];
    destruct (proj1 (Hdom p) Hp) as [t Ht];
    destruct (inv_threads _ HI p t Ht) as (fd & ops & Hops);
    (destruct (finishing_eq p t mw mc ths g fb mx win hp slots nc lst tr Ht)
      as (hp' & evs & -> & Hother);
      [rewrite Hops; apply thread_after_ok|by apply (Hsrv p)|]);
    intros [= <-].
  - done.
  - by apply removeOne_NoDup, (inv_nodup _ HI).
  - apply lookup_delete_eq.
  - intros q Hne. cbn [qt heap]. rewrite lookup_delete_ne by done. by apply Hother.
Qed.

Lemma heap_untouched p (hp : gmap addr ClientThread) :
  hp !! p = None → delete p (alter quit p hp) = hp.
Proof.
  intros Hp. rewrite delete_id; [|by apply lookup_alter_None].
  apply map_eq. intros q. destruct (decide (p = q)) as [->|Hne].
  - by rewrite lookup_alter_eq, Hp.
  - by rewrite lookup_alter_ne.
Qed.

(** X6.  [removeClient] with a [QThread] sender that is not in the set:
    [removeOne] finds nothing, the set, the subscription and the thread
    objects of the server stay as they are; the sender is quit, waited
    for (100 ms) and deleted all the same, and the unchanged count is
    logged. *)
Theorem removeClient_absent w p :
  reachable w → p ∉ m_threads (server w) →
  removeClient (Some (ObjThread p)) w
  = Some (tt, mkWorld (server w) (qt w)
                (trace w ++ [EvQuit p; EvWait p 100; EvDelete p;
                             EvInfo (LogDetached (length (m_threads (server w))))])).
Proof.
  intros Hr Hp. pose proof (reachable_Inv w Hr) as HI.
  destruct (reachable_tidy w Hr) as [Hdom _].
  destruct w as [[mw mc ths g fb mx] [win hp slots nc lst] tr].
  cbn [server qt m_threads heap trace] in *.
  rewrite removeClient_eq, removeOne_notin by done.
  assert (hp !! p = None) as Hnone.
  { apply eq_None_not_Some. by rewrite <- Hdom. }
  rewrite heap_untouched by done.
  pose proof (inv_subscription _ HI) as Hsub. cbn in Hsub.
  destruct g as [id|]; destruct Hsub as [_ Hne].
  - by rewrite bool_decide_false.
  - subst ths. by rewrite bool_decide_true.
Qed.

(** X7.  [addClient] followed by [removeClient] for the thread just
    created gives back the server as it was: same set, same subscription
    handle and connection table (a subscription made for this viewer is
    undone again), same buffer, same thread objects. *)
Theorem attach_detach_round_trip w fd sender :
  reachable w →
  let p := fresh (dom (heap (qt w))) in
  ∃ w1 w2,
    exec (addClient fd sender) w = Some w1
    ∧ exec (removeClient (Some (ObjThread p))) w1 = Some w2
    ∧ server w2 = server w
    ∧ heap (qt w2) = heap (qt w)
    ∧ frameSwapped_slots (qt w2) = frameSwapped_slots (qt w)
    ∧ app_window (qt w2) = app_window (qt w)
    ∧ listening (qt w2) = listening (qt w).
Proof.
  intros Hr p. pose proof (reachable_Inv w Hr) as HI.
  pose proof (fresh_not_registered w HI) as Hfresh. fold p in Hfresh.
  assert (heap (qt w) !! p = None) as Hnone.
  { apply not_elem_of_dom. apply is_fresh. }
  destruct w as [[mw mc ths g fb mx] [win hp slots nc lst] tr].
  cbn [server qt m_threads heap] in *.
  pose proof (inv_window _ HI) as Hw. cbn in Hw. subst mw.
  pose proof (inv_subscription _ HI) as Hsub. cbn in Hsub.
  eexists _, _. split; [apply (exec_eq _ _ tt), addClient_eq|].
  split; [apply (exec_eq _ _ tt), removeClient_eq|].
  cbn [server qt heap frameSwapped_slots app_window listening].
  fold p. rewrite removeOne_snoc by done.
  rewrite alter_insert_eq, delete_insert_eq, delete_id by done.
  destruct g as [id|]; destruct Hsub as [-> Hths]; cbn [non_null negb andb].
  - by rewrite bool_decide_false.
  - subst ths. rewrite bool_decide_true by done. cbn [andb app].
    rewrite filter_cons. cbn [fst]. by rewrite decide_False by (by intros ?).
Qed.


(** ** Notifications *)



(** X9.  On a reachable server a [frameSwapped] of the window runs
    exactly one [updateFrameBuffer] when there are viewers, and nothing at
    all when there are none: without viewers rendering costs nothing. *)
Theorem frameSwapped_captures_iff_viewers w :
  reachable w →
  emit_frameSwapped w
  = if bool_decide (m_threads (server w) = []) then Some (tt, w)
    else updateFrameBuffer w.
Proof.
  intros HI%reachable_Inv. pose proof (inv_subscription _ HI) as Hsub.
  unfold emit_frameSwapped, mbind at 1, M_bind at 1, gets.
  destruct (m_grabConnectionId (server w)) as [id|];
    destruct Hsub as [-> Hths]; cbn [for_each snd].
  - rewrite bool_decide_false by done. apply then_ret.
  - by rewrite bool_decide_true.
Qed.

Lemma run_keeps_buffer ops :
  forallb (λ op, negb (captures op)) ops = true →
  keeps (λ w, m_frameBuffer (server w)) (run ops).
Proof.
  induction ops as [|op ops IH]; cbn [forallb]; [intros _; apply keeps_ret|].
  intros [Hop Hops]%andb_true_iff. unfold run. cbn [for_each].
  apply keeps_bind; [|intros _; by apply IH].
  apply step_keeps_buffer. by destruct (captures op).
Qed.

Lemma frameBuffer_reads w :
  Inv w → ∃ w', frameBuffer w = Some (m_frameBuffer (server w), w').
Proof.
  intros HI. destruct w as [[mw mc ths g fb mx] e tr].
  pose proof (inv_mutex _ HI) as Hmx. cbn in Hmx. subst mx.
  eexists. apply frameBuffer_eq.
Qed.

(** X10.  Only captures write the buffer: whatever else happens
    (connections come and go, threads run, the window is resized or
    renders, somebody reads) [frameBuffer()] returns afterwards what it
    returned before. *)
Theorem buffer_written_by_captures_only ops w w' :
  reachable w →
  forallb (λ op, negb (captures op)) ops = true →
  exec (run ops) w = Some w' →
  ∃ w1 w1',
    frameBuffer w = Some (m_frameBuffer (server w), w1)
    ∧ frameBuffer w' = Some (m_frameBuffer (server w), w1').
Proof.
  intros HI%reachable_Inv Hops Hrun.
  destruct (run_Inv ops w HI) as (w2 & Hrun2 & HI').
  unfold exec in Hrun. rewrite Hrun2 in Hrun. injection Hrun as ->.
  pose proof (run_keeps_buffer ops Hops _ _ _ Hrun2) as Heq. cbn beta in Heq.
  destruct (frameBuffer_reads w HI) as [w1 H1].
  destruct (frameBuffer_reads w' HI') as [w1' H1'].
  exists w1, w1'. split; [done|]. by rewrite <- Heq.
Qed.

(** X11.  Until the first capture [frameBuffer()] returns the null
    image: the constructor leaves [m_frameBuffer] default-constructed, and
    a viewer that asks before the first [frameSwapped] gets no pixels. *)
Theorem no_capture_no_image port window win listen_ok w0 ops w :
  construct port window win listen_ok = Some w0 →
  forallb (λ op, negb (captures op)) ops = true →
  exec (run ops) w0 = Some w →
  ∃ w', frameBuffer w = Some (QImage_null, w').
Proof.
  intros Hc Hops Hrun. pose proof (construct_Inv _ _ _ _ _ Hc) as HI0.
  destruct (run_Inv ops w0 HI0) as (w2 & Hrun2 & HI).
  unfold exec in Hrun. rewrite Hrun2 in Hrun. injection Hrun as ->.
  pose proof (run_keeps_buffer ops Hops _ _ _ Hrun2) as Heq. cbn beta in Heq.
  destruct (frameBuffer_reads w HI) as [w' Hfb]. exists w'.
  rewrite Hfb, Heq. do 2 f_equal.
  revert Hc. rewrite construct_eq. destruct (_ && _); [|done]. by intros [= <-].
Qed.


(** ** Connections from the network *)


(** ** The destructor *)

Lemma quit_idemp t : quit (quit t) = quit t.
Proof. by destruct t. Qed.

Lemma quit_all_lookup ths hp q :
  quit_all ths hp !! q
  = if bool_decide (q ∈ ths) then quit <$> hp !! q else hp !! q.
Proof.
  unfold quit_all. revert hp. induction ths as [|p ths IH]; intros hp.
  - cbn. by rewrite bool_decide_false by (by intros ?%elem_of_nil).
  - cbn [foldl]. rewrite IH. destruct (decide (p = q)) as [->|Hne].
    + rewrite lookup_alter_eq. rewrite (bool_decide_true (q ∈ q :: ths)) by (by left).
      case_bool_decide; [|done].
      destruct (hp !! q) as [t|]; [|done]. cbn. by rewrite quit_idemp.
    + rewrite lookup_alter_ne by done.
      case_bool_decide as Hq.
      * by rewrite bool_decide_true by (by right).
      * rewrite bool_decide_false; [done|].
        intros [?|?]%elem_of_cons; [by subst|done].
Qed.

Lemma quit_loop_eq ths s win hp slots nc lst tr :
  for_each ths (λ thread, QThread_quit thread;; QThread_wait thread 20)
    (mkWorld s (mkQtEnv win hp slots nc lst) tr)
  = Some (tt,
      mkWorld s (mkQtEnv win (quit_all ths hp) slots nc lst)
        (tr ++ flat_map (λ p, [EvQuit p; EvWait p 20]) ths)).
Proof.
  revert hp tr. induction ths as [|p ths IH]; intros hp tr.
  - cbn. by rewrite app_nil_r.
  - cbn [for_each flat_map]. sim.
    match goal with
    | |- context [for_each ths ?f ?w] =>
        change (for_each ths f w)
          with (for_each ths
                  (λ thread, QThread_quit thread;; QThread_wait thread 20) w)
    end.
    rewrite IH. cbn [app]. by rewrite <- !app_assoc.
Qed.

Lemma waited_quits (ths : list addr) :
  waited (flat_map (λ p, [EvQuit p; EvWait p 20]) ths) = 20 * Z.of_nat (length ths).
Proof.
  induction ths as [|p ths IH]; [done|].
  cbn [flat_map app length]. unfold waited in *. cbn [foldr]. rewrite IH. lia.
Qed.

Lemma dtor_eq mw mc ths g fb mx win hp slots nc lst tr :
  VncServer_dtor
    (mkWorld (mkVncServer mw mc ths g fb mx) (mkQtEnv win hp slots nc lst) tr)
  = Some (tt,
      mkWorld (mkVncServer None mc ths g fb mx)
        (mkQtEnv win (quit_all ths hp) slots nc lst)
        (tr ++ flat_map (λ p, [EvQuit p; EvWait p 20]) ths)).
Proof.
  unfold VncServer_dtor, mbind at 1 2, M_bind at 1 2.
  unfold upd_server, modify, gets. cbn [server qt trace m_threads].
  apply quit_loop_eq.
Qed.

(** X13.  The destructor nulls [m_window] and then, for every thread of
    the set in order, calls [quit()] and [wait( 20 )], nothing else: it
    deletes no thread object, does not disconnect the subscription and
    leaves the set as it is; every thread of the set has been asked to
    quit, and the waits are limited to 20 ms times the number of
    threads. *)
Theorem destructor_quits_every_thread w :
  reachable w →
  ∃ w' evs,
    exec VncServer_dtor w = Some w'
    ∧ m_window (server w') = None
    ∧ m_threads (server w') = m_threads (server w)
    ∧ frameSwapped_slots (qt w') = frameSwapped_slots (qt w)
    ∧ (∀ p, p ∈ m_threads (server w) →
            ∃ t, heap (qt w) !! p = Some t ∧ heap (qt w') !! p = Some (quit t))
    ∧ trace w' = trace w ++ evs
    ∧ evs = flat_map (λ p, [EvQuit p; EvWait p 20]) (m_threads (server w))
    ∧ waited evs = 20 * Z.of_nat (length (m_threads (server w))).
Proof.
  intros HI%reachable_Inv.
  destruct w as [[mw mc ths g fb mx] [win hp slots nc lst] tr].
  eexists _, _. split.
  - apply (exec_eq _ _ tt), dtor_eq.
  - cbn [server qt trace m_window m_threads heap frameSwapped_slots m_cursor
         m_grabConnectionId m_frameBuffer m_frameBufferMutex].
    split_and!; [done..| |done|done|apply waited_quits].
    intros p Hp. destruct (inv_live _ HI p Hp) as [t Ht]. cbn in Ht.
    exists t. split; [done|].
    by rewrite quit_all_lookup, bool_decide_true, Ht.
Qed.

Lemma quit_runs_out t :
  thread_ok t → pc t ≠ NotStarted →
  let t' := run_step (run_step (run_step (run_step (run_step (quit t))))) in
  pc t' = Done ∧ m_client t' = None ∧ client t' = None.
Proof.
  destruct t as [fd mcl cl k q f]. unfold thread_ok. cbn.
  destruct k, q; cbn; intros [-> ->] ?; by cbn.
Qed.

Lemma runs_eq p s win hp slots nc lst tr :
  run (replicate 5 (ThreadRuns p)) (mkWorld s (mkQtEnv win hp slots nc lst) tr)
  = Some (tt,
      mkWorld s
        (mkQtEnv win
           (alter run_step p (alter run_step p (alter run_step p
              (alter run_step p (alter run_step p hp)))))
           slots nc lst) tr).
Proof. reflexivity. Qed.

(** X14.  The destructor ends the workers: once it has run, every thread
    of the set leaves [run] within five statements, its [m_client] null
    and its client destroyed, without any further call of the server. *)
Theorem destructor_ends_workers w p :
  reachable w → p ∈ m_threads (server w) →
  ∃ w1 w2 t,
    exec VncServer_dtor w = Some w1
    ∧ exec (run (replicate 5 (ThreadRuns p))) w1 = Some w2
    ∧ server w2 = server w1
    ∧ trace w2 = trace w1
    ∧ heap (qt w2) !! p = Some t
    ∧ pc t = Done ∧ m_client t = None ∧ client t = None.
Proof.
  intros Hr Hp. pose proof (reachable_Inv w Hr) as HI.
  destruct (reachable_tidy w Hr) as [Hdom Hsrv].
  destruct w as [[mw mc ths g fb mx] [win hp slots nc lst] tr].
  cbn [server qt m_threads heap] in *.
  destruct (proj1 (Hdom p) Hp) as [t Ht].
  destruct (inv_threads _ HI p t Ht) as (fd & ops & Hops).
  destruct (quit_runs_out t) as (Hpc & Hm & Hcl);
    [rewrite Hops; apply thread_after_ok|by apply (Hsrv p t Ht)|].
  eexists _, _, _. split; [apply (exec_eq _ _ tt), dtor_eq|].
  split; [apply (exec_eq _ _ tt), runs_eq|].
  cbn [server qt trace heap]. split_and!; [done|done| |exact Hpc|exact Hm|exact Hcl].
  by rewrite !lookup_alter_eq, quit_all_lookup, bool_decide_true, Ht.
Qed.

(** X15.  The body of the destructor nulls [m_window] and leaves
    [frameSwapped] connected: with viewers attached, a frame swapped once
    it has run still enters [updateFrameBuffer], which takes the mutex and
    then fails in line 218, where it dereferences [m_window]. *)
Theorem frame_swapped_during_destruction w :
  reachable w → m_threads (server w) ≠ [] →
  ∃ w1 w2,
    exec VncServer_dtor w = Some w1
    ∧ subscribed w1 = true
    ∧ capture_step C216 w1 = Some (C218, w2)
    ∧ capture_step C218 w2 = None
    ∧ updateFrameBuffer w1 = None
    ∧ emit_frameSwapped w1 = None.
Proof.
  intros HI%reachable_Inv Hths.
  destruct w as [[mw mc ths g fb mx] [win hp slots nc lst] tr].
  pose proof (inv_mutex _ HI) as Hmx. pose proof (inv_subscription _ HI) as Hsub.
  cbn in Hmx, Hsub, Hths. subst mx.
  destruct g as [id|]; destruct Hsub as [-> Hsub]; [|done].
  eexists _, _. split; [apply (exec_eq _ _ tt), dtor_eq|].
  split; [done|]. split; [reflexivity|]. split; [reflexivity|].
  split; reflexivity.
Qed.

(** ** The life of a thread *)

Lemma thread_step_loop t o :
  (past_loop (pc t) = true → quit_requested t = true) →
  past_loop (pc (thread_step t o)) = true →
  quit_requested (thread_step t o) = true.
Proof. destruct t as [fd mcl cl k q f]. by destruct o, k, q, cl; cbn; auto. Qed.

Lemma thread_step_quiet t o :
  asks_to_stop o = false → quit_requested t = false →
  quit_requested (thread_step t o) = false.
Proof. destruct t as [fd mcl cl k q f]. cbn. intros Ho ->. by destruct o, k. Qed.

(** X16.  [ClientThread::run] gets past its event loop (line 101) only
    after a quit request: if a thread object is at line 102 or later,
    then [quit()] was called on it or its client emitted [disconnected],
    and the request is on record. *)
Theorem run_returns_only_on_request fd ops :
  past_loop (pc (thread_after fd ops)) = true →
  quit_requested (thread_after fd ops) = true
  ∧ existsb asks_to_stop ops = true.
Proof.
  intros Hpast.
  assert (quit_requested (thread_after fd ops) = true) as Hq.
  { revert Hpast. unfold thread_after.
    induction ops as [|o ops IH] using rev_ind; [done|].
    rewrite foldl_app. cbn [foldl]. by apply thread_step_loop. }
  split; [done|].
  destruct (existsb asks_to_stop ops) eqn:Hex; [done|]. exfalso.
  assert (quit_requested (thread_after fd ops) = false) as Hq'; [|congruence].
  clear Hpast Hq. revert Hex. unfold thread_after.
  induction ops as [|o ops IH] using rev_ind; [done|].
  rewrite existsb_app, foldl_app. cbn [existsb foldl].
  intros [Hex [Ho _]%orb_false_iff]%orb_false_iff.
  apply thread_step_quiet; [done|by apply IH].
Qed.

(** X17.  A started thread on which [quit()] is called, or whose existing
    client emits [disconnected], leaves [run] within five statements,
    wherever it stood: [m_client] is null again and the client
    destroyed. *)
Theorem quit_ends_run fd ops o :
  pc (thread_after fd ops) ≠ NotStarted →
  asks_to_stop o = true →
  (o = TDisconnected → is_Some (client (thread_after fd ops))) →
  let t := foldl thread_step (thread_step (thread_after fd ops) o)
             [TRuns; TRuns; TRuns; TRuns; TRuns] in
  pc t = Done ∧ m_client t = None ∧ client t = None.
Proof.
  intros Hpc Ho Hd. pose proof (thread_after_ok fd ops) as Hok. revert Hpc Hd Hok.
  destruct (thread_after fd ops) as [fd' mcl cl k q f]. unfold thread_ok. cbn.
  intros Hk Hd. destruct o; try discriminate.
  - destruct k, q; cbn; intros [-> ->]; by cbn.
  - destruct (Hd eq_refl) as [c ->].
    destruct k, q; cbn; intros [-> [=]]; by cbn.
Qed.

(** ** Captures and reads interleaved *)

Lemma capture_step_keeps k :
  keeps (λ w, (m_window (server w), m_threads (server w), heap (qt w)))
    (capture_step k).
Proof.
  destruct k; cbn [capture_step];
    unfold QMutex_lock, QMutex_unlock, wait_while, qt_gl_read_framebuffer,
      markDirty, upd_server, upd_qt, emit;
    repeat keeps_step.
Qed.

Lemma read_step_keeps r :
  keeps (λ w, (m_window (server w), m_threads (server w), heap (qt w)))
    (read_step r).
Proof.
  destruct r; cbn [read_step];
    unfold QMutex_lock, QMutex_unlock, wait_while, upd_server, emit;
    repeat keeps_step.
Qed.

Lemma move_steady w m c c' : steady w c → move m c = Some c' → steady w c'.
Proof.
  intros (Hw & Ht & Hh). unfold steady.
  destruct m as [|i| | |size ratio|]; cbn [move].
  - destruct (capture_step _ _) as [[k w1]|] eqn:Hk; [|done]. intros [= <-].
    apply capture_step_keeps in Hk. injection Hk as H1 H2 H3.
    cbn [world]. by rewrite H1, H2, H3.
  - destruct (readers c !! i) as [r|]; [|done].
    destruct (read_step _ _) as [[r' w1]|] eqn:Hk; [|done]. intros [= <-].
    apply read_step_keeps in Hk. injection Hk as H1 H2 H3.
    cbn [world]. by rewrite H1, H2, H3.
  - destruct (capture c); try done. by intros [= <-].
  - by intros [= <-].
  - intros [= <-]. cbn. by destruct (world c) as [s [] tr].
  - intros [= <-]. cbn. by destruct (world c) as [s [] tr].
Qed.

Lemma moves_steady w ms c c' : steady w c → moves ms c = Some c' → steady w c'.
Proof.
  revert c. induction ms as [|m ms IH]; intros c Hs; cbn [moves].
  - by intros [= <-].
  - destruct (move m c) as [c1|] eqn:Hm; [|done].
    apply IH. by apply (move_steady w m c).
Qed.

Lemma capture_step_enabled k w :
  m_window (server w) = Some TheWindow →
  (∀ p, p ∈ m_threads (server w) → is_Some (heap (qt w) !! p)) →
  (k = C216 → m_frameBufferMutex (server w) = false) →
  is_Some (capture_step k w).
Proof.
  destruct w as [[mw mc ths g fb mx] e tr]. cbn. intros -> Hlive Hmx.
  destruct k; cbn [capture_step]; try done.
  - rewrite (Hmx eq_refl). by sim.
  - sim. by destruct (bool_decide _).
  - unfold mbind, M_bind, gets. cbn [server m_threads].
    by rewrite notify_eq.
Qed.

Lemma read_step_enabled r w :
  (r = R252 → m_frameBufferMutex (server w) = false) → is_Some (read_step r w).
Proof.
  destruct w as [[mw mc ths g fb mx] e tr]. cbn. intros Hmx.
  destruct r; cbn [read_step]; try done. rewrite (Hmx eq_refl). by sim.
Qed.

Lemma holder_exists c owner :
  Exclusive c owner →
  m_frameBufferMutex (server (world c)) = true →
  capture_holds (capture c) = true
  ∨ ∃ j r, readers c !! j = Some r ∧ reader_holds r = true.
Proof.
  intros He Hmx. rewrite (excl_mutex _ _ He) in Hmx.
  apply bool_decide_eq_true in Hmx.
  destruct owner as [[|j]|]; [| |done].
  - left. rewrite (excl_capture _ _ He). by apply bool_decide_true.
  - right. destruct (excl_owner _ _ He j eq_refl) as [r Hr]. exists j, r.
    split; [done|]. rewrite (excl_reader _ _ He j r Hr). by apply bool_decide_true.
Qed.

(** X18.  With captures and reads interleaved statement by statement in
    any way, whoever holds the mutex can always execute its next
    statement, and a thread is refused its next statement only at the
    construction of its [QMutexLocker] while another thread is inside its
    locked scope: the lock is always released again and nobody waits for
    ever. *)
Theorem blocked_only_at_the_lock w ms c :
  reachable w → moves ms (initial w) = Some c →
  (capture_holds (capture c) = true → is_Some (move CaptureMoves c))
  ∧ (∀ j r, readers c !! j = Some r → reader_holds r = true →
            is_Some (move (ReaderMoves j) c))
  ∧ (move CaptureMoves c = None →
     capture c = C216
     ∧ ∃ j r, readers c !! j = Some r ∧ reader_holds r = true)
  ∧ (∀ i r, readers c !! i = Some r → move (ReaderMoves i) c = None →
            r = R252
            ∧ (capture_holds (capture c) = true
               ∨ ∃ j r', readers c !! j = Some r' ∧ reader_holds r' = true)).
Proof.
  intros HI%reachable_Inv Hms.
  destruct (moves_Exclusive ms _ c None (initial_Exclusive w (inv_mutex _ HI)) Hms)
    as [owner He].
  assert (steady w (initial w)) as Hs0 by done.
  destruct (moves_steady w ms _ c Hs0 Hms) as (Hw & Hths & Hhp).
  rewrite (inv_window _ HI) in Hw.
  assert (∀ p, p ∈ m_threads (server (world c)) →
               is_Some (heap (qt (world c)) !! p)) as Hlive.
  { intros p. rewrite Hths, Hhp. apply (inv_live _ HI). }
  assert (∀ k, (k = C216 → m_frameBufferMutex (server (world c)) = false) →
               capture c = k → is_Some (move CaptureMoves c)) as Hcap.
  { intros k Hk <-. cbn [move].
    destruct (capture_step_enabled (capture c) (world c) Hw Hlive Hk)
      as [[k' w'] ->]. done. }
  assert (∀ i r, (r = R252 → m_frameBufferMutex (server (world c)) = false) →
                 readers c !! i = Some r → is_Some (move (ReaderMoves i) c))
    as Hread.
  { intros i r Hr Hi. cbn [move]. rewrite Hi.
    destruct (read_step_enabled r (world c) Hr) as [[r' w'] ->]. done. }
  split_and!.
  - intros Hh. apply (Hcap (capture c)); [|done]. intros Hk.
    rewrite Hk in Hh. done.
  - intros j r Hj Hh. apply (Hread j r); [|done]. by intros ->.
  - intros Hnone.
    destruct (m_frameBufferMutex (server (world c))) eqn:Hmx.
    + assert (capture c = C216 ∨ capture c ≠ C216) as [Hk|Hk]
        by (destruct (capture c); (by left) || (by right)).
      * split; [done|].
        destruct (holder_exists c owner He Hmx) as [Hh|Hh]; [|done].
        rewrite Hk in Hh. done.
      * destruct (Hcap (capture c)) as [c' Hc']; [done|done|congruence].
    + destruct (Hcap (capture c)) as [c' Hc']; [done|done|congruence].
  - intros i r Hi Hnone.
    destruct (m_frameBufferMutex (server (world c))) eqn:Hmx.
    + assert (r = R252 ∨ r ≠ R252) as [Hr|Hr]
        by (destruct r; (by left) || (by right)).
      * split; [done|]. by apply (holder_exists c owner).
      * destruct (Hread i r) as [c' Hc']; [done|done|congruence].
    + destruct (Hread i r) as [c' Hc']; [done|done|congruence].
Qed.

(** X19.  With captures and reads interleaved in any way, the copy a
    reader takes in line 253 is the buffer as the most recent capture
    released it (or the initial one when no capture has finished), and no
    capture is inside its locked scope at that moment. *)
Theorem reader_copies_latest_release w ms c i :
  reachable w → moves ms (initial w) = Some c →
  readers c !! i = Some R253 →
  ∃ fb c', move (ReaderMoves i) c = Some c'
           ∧ readers c' !! i = Some (R255 fb)
           ∧ head (released c') = Some fb
           ∧ capture_holds (capture c') = false.
Proof.
  intros HI%reachable_Inv Hms Hi.
  destruct (moves_Exclusive ms _ c None (initial_Exclusive w (inv_mutex _ HI)) Hms)
    as [owner He].
  pose proof (excl_reader _ _ He i R253 Hi) as Hown. cbn in Hown.
  symmetry in Hown. apply bool_decide_eq_true in Hown.
  assert (capture_holds (capture c) = false) as Hcap.
  { rewrite (excl_capture _ _ He), Hown. by apply bool_decide_false. }
  exists (m_frameBuffer (server (world c))). eexists. cbn [move]. rewrite Hi.
  cbn [read_step]. unfold mbind, M_bind, gets, mret, M_ret.
  split; [reflexivity|]. cbn [readers released capture].
  split_and!; [|by apply (excl_stable _ _ He)|done].
  apply list_lookup_insert_eq. by apply lookup_lt_Some in Hi.
Qed.

End Proofs.

(** * The theorems at work on the concrete producer *)

Lemma demo_start_constructed :
  construct 5999 (Some TheWindow) demo_window true = Some demo_start.
Proof. vm_compute. reflexivity. Defined.

Lemma demo_world_reachable : reachable demo_world.
Proof.
  exists 5999, (Some TheWindow), demo_window, true, demo_start, demo_ops.
  split; vm_compute; reflexivity.
Defined.

Lemma subscription_iff_connections_witness :
  construct 5999 (Some TheWindow) demo_window true = Some demo_start
  ∧ ∀ n, ∃ w, exec (run (take n (conn_op <$> demo_conn_ops))) demo_start
              = Some w
              ∧ (subscribed w = true ↔ m_threads (server w) ≠ [])
              ∧ non_null (m_grabConnectionId (server w)) = subscribed w.
Proof.
  split; [exact demo_start_constructed|].
  exact (subscription_iff_connections 5999 (Some TheWindow) demo_window true
           demo_start (conn_op <$> demo_conn_ops) demo_start_constructed).
Defined.

Lemma addClient_spawns_and_subscribes_witness :
  reachable demo_world
  ∧ ∃ w', exec (addClient 9 (Some ObjTcpServer)) demo_world = Some w'
          ∧ m_threads (server w')
            = m_threads (server demo_world)
              ++ [fresh (dom (heap (qt demo_world)))].
Proof.
  split; [exact demo_world_reachable|].
  destruct (addClient_spawns_and_subscribes 9 (Some ObjTcpServer) demo_world
              demo_world_reachable) as (w' & t & Hexec & _ & Hthreads & _).
  exists w'. split; [exact Hexec|exact Hthreads].
Defined.

Lemma removeClient_present_witness :
  reachable demo_world
  ∧ 1%positive ∈ m_threads (server demo_world)
  ∧ ∃ w', exec (removeClient (Some (ObjThread 1%positive))) demo_world = Some w'
          ∧ (1%positive ∉ m_threads (server w')).
Proof.
  assert (1%positive ∈ m_threads (server demo_world)) as Hin.
  { vm_compute. left. }
  split; [exact demo_world_reachable|]. split; [exact Hin|].
  destruct (removeClient_present 1%positive demo_world demo_world_reachable Hin)
    as (w' & id & ms & Hexec & _ & Hgone & _).
  exists w'. split; [exact Hexec|exact Hgone].
Defined.

Lemma capture_sizes_and_copies_witness :
  reachable demo_world
  ∧ ∃ w', exec updateFrameBuffer demo_world = Some w'
          ∧ img_size (m_frameBuffer (server w')) = mkQSize 800 600.
Proof.
  split; [exact demo_world_reachable|].
  destruct (capture_sizes_and_copies demo_world demo_world_reachable)
    as (w' & notify & Hexec & Hsize & _).
  exists w'. split; [exact Hexec|exact Hsize].
Defined.

Lemma capture_notifies_after_unlock_witness :
  reachable demo_world
  ∧ ∃ w' critical notify,
      exec updateFrameBuffer demo_world = Some w'
      ∧ trace w' = trace demo_world ++ critical ++ [EvUnlock] ++ notify
      ∧ notified notify = [1%positive; 2%positive].
Proof.
  split; [exact demo_world_reachable|].
  destruct (capture_notifies_after_unlock demo_world demo_world_reachable)
    as (w' & critical & notify & Hexec & Htrace & _ & _ & _ & _ & Hall & _).
  exists w', critical, notify. split; [exact Hexec|]. split; [exact Htrace|].
  transitivity (m_threads (server demo_world)); [exact Hall|].
  vm_compute. reflexivity.
Defined.

Lemma frameBuffer_copies_under_lock_witness :
  reachable demo_world
  ∧ moves demo_moves (initial demo_world) = Some demo_config
  ∧ readers demo_config !! 0%nat = Some (Returned demo_copy)
  ∧ demo_copy ∈ released demo_config.
Proof.
  assert (moves demo_moves (initial demo_world) = Some demo_config) as Hc.
  { vm_compute. reflexivity. }
  assert (readers demo_config !! 0%nat = Some (Returned demo_copy)) as Hr.
  { vm_compute. reflexivity. }
  split; [exact demo_world_reachable|]. split; [exact Hc|]. split; [exact Hr|].
  destruct (frameBuffer_copies_under_lock demo_world demo_world_reachable)
    as [_ Hmoves].
  exact (proj1 (proj2 (Hmoves demo_moves demo_config Hc) 0%nat demo_copy Hr)).
Defined.

Lemma listen_outcome_witness :
  inherits_QQuickWindow demo_window = true
  ∧ ∃ w0, construct 5999 (Some TheWindow) demo_window false = Some w0
          ∧ trace w0 = [EvListen 5999 false].
Proof.
  split; [reflexivity|].
  destruct (listen_outcome 5999 demo_window false [] eq_refl)
    as (w0 & w & evs & Hc & Ht & _).
  exists w0. split; [exact Hc|exact Ht].
Defined.

Lemma connection_count_witness :
  construct 5999 (Some TheWindow) demo_window true = Some demo_start
  ∧ ∃ w, exec (run (conn_op <$> demo_conn_ops)) demo_start = Some w
         ∧ length (m_threads (server w))
           = (count_adds demo_conn_ops
              - count_matched demo_conn_ops demo_start)%nat
         ∧ NoDup (m_threads (server w)).
Proof.
  split; [exact demo_start_constructed|].
  destruct (connection_count 5999 (Some TheWindow) demo_window true demo_start
              demo_conn_ops demo_start_constructed)
    as (w & Hexec & _ & Hlen & _ & Hnd).
  exists w. split; [exact Hexec|]. split; [exact Hlen|exact Hnd].
Defined.

Lemma removeClient_foreign_sender_witness :
  qobject_cast_QThread (Some ObjTcpServer) = None
  ∧ removeClient (Some ObjTcpServer) demo_world = Some (tt, demo_world).
Proof.
  split; [reflexivity|].
  exact (removeClient_foreign_sender (Some ObjTcpServer) demo_world eq_refl).
Defined.

(** The handler of a started thread exists once line 97 has run, but
    [m_client] is not set before line 100: a [markDirty] in between is not
    forwarded. *)
Lemma markDirty_not_forwarded_before_line_100 :
  let t := thread_after 7 [TConnectFinished; TStart; TRuns] in
  client t = Some (mkVncClient 7)
  ∧ ClientThread_markDirty 1%positive t demo_world = Some (tt, demo_world)
  ∧ ClientThread_markDirty 1%positive t demo_world
    ≠ Some (tt, mkWorld (server demo_world) (qt demo_world)
                  (trace demo_world
                   ++ [EvClientMarkDirty 1%positive (mkVncClient 7)])).
Proof.
  split; [reflexivity|]. split; [reflexivity|].
  intros Heq. vm_compute in Heq. discriminate Heq.
Qed.

(** A server whose [listen] fails logs nothing. *)
Lemma listen_failure_not_logged :
  ∃ w0, construct 5999 (Some TheWindow) demo_window false = Some w0
        ∧ trace w0 = [EvListen 5999 false]
        ∧ ∀ line, EvInfo line ∉ trace w0.
Proof.
  eexists. split; [vm_compute; reflexivity|]. split; [reflexivity|].
  intros line Hin. cbn in Hin.
  apply elem_of_cons in Hin as [Hin|Hin]; [discriminate Hin|].
  by apply elem_of_nil in Hin.
Qed.

(** * The scenarios of the specification, run *)

(** Scenario 1: the first viewer subscribes and asks for a frame; the
    capture that follows gives an 800 x 600 buffer. *)
Example scenario_first_connection :
  (w ← exec (run [IncomingConnection 7; FrameRendered; FrameSwapped]) demo_start;
   Some (length (m_threads (server w)), subscribed w,
         img_size (m_frameBuffer (server w)),
         count_occ Nat.eq_dec
           (omap (λ e, match e with EvInvokeUpdate => Some 0%nat | _ => None end)
              (trace w)) 0%nat))
  = Some (1%nat, true, mkQSize 800 600, 1%nat).
Proof. vm_compute. reflexivity. Qed.

(** Scenario 2: a second viewer does not subscribe again. *)
Example scenario_second_connection :
  (w ← exec (addClient 9 (Some ObjTcpServer)) demo_world;
   Some (length (m_threads (server w)), frameSwapped_slots (qt w)))
  = Some (3%nat, [(0%nat, DirectConnection)]).
Proof. vm_compute. reflexivity. Qed.

(** Scenario 3: the window is resized; the next frame reallocates the
    buffer and both threads are called. *)
Example scenario_resize :
  (w ← exec (run [@WindowResized IntegerRatio (mkQSize 1024 768) 1; FrameRendered;
                  FrameSwapped]) demo_world;
   Some (m_frameBuffer (server w),
         notified (drop (length (trace demo_world)) (trace w))))
  = Some (mkQImage (mkQSize 1024 768) Format_RGB32
            (Converted Format_RGB32 (Grabbed 2)),
          [1%positive; 2%positive]).
Proof. vm_compute. reflexivity. Qed.

(** Scenario 4: the subscription goes with the last viewer, not before. *)
Example scenario_removals :
  (w1 ← exec (removeClient (Some (ObjThread 1%positive))) demo_world;
   w2 ← exec (removeClient (Some (ObjThread 2%positive))) w1;
   Some (subscribed w1, subscribed w2, m_threads (server w2)))
  = Some (true, false, []).
Proof. vm_compute. reflexivity. Qed.

(** Scenario 5: a capture with no viewer fills the buffer and calls
    nobody; without a subscription a new frame triggers nothing. *)
Example scenario_no_viewer :
  (w1 ← exec updateFrameBuffer demo_start;
   w2 ← exec (run [FrameRendered; FrameSwapped]) w1;
   Some (img_size (m_frameBuffer (server w1)),
         drop (length (trace demo_start)) (trace w1),
         drop (length (trace w1)) (trace w2)))
  = Some (mkQSize 800 600,
          [EvLock; EvAllocImage (mkQSize 800 600) Format_RGB32;
           EvReadFramebuffer (mkQSize 800 600) 0; EvConvertTo Format_RGB32;
           EvUnlock],
          []).
Proof. vm_compute. reflexivity. Qed.

(** The subscription comes back with the first viewer after the last one
    has gone; the handle is a new one. *)
Example scenario_resubscription :
  (w1 ← exec (run (conn_op <$> take 1 demo_conn_ops)) demo_start;
   w2 ← exec (run (conn_op <$> take 2 demo_conn_ops)) demo_start;
   w4 ← exec (run (conn_op <$> demo_conn_ops)) demo_start;
   Some (frameSwapped_slots (qt w1), frameSwapped_slots (qt w2),
         frameSwapped_slots (qt w4), m_threads (server w4)))
  = Some ([(0%nat, DirectConnection)], [], [(1%nat, DirectConnection)],
          [1%positive]).
Proof. vm_compute. reflexivity. Qed.

(** The test of [m_window] in [addClient] concerns an object whose
    destructor has begun, a state no operation leads to: there a thread
    would be added without a subscription. *)
Example addClient_during_destruction :
  (w ← exec (VncServer_dtor;; addClient 9 None) demo_start;
   Some (m_threads (server w), subscribed w))
  = Some ([1%positive], false).
Proof. vm_compute. reflexivity. Qed.

(** * The further properties at work on the concrete producer *)

Lemma demo_world_later_run :
  exec (run demo_quiet_ops) demo_world = Some demo_world_later.
Proof. vm_compute. reflexivity. Defined.

Lemma demo_world_early_run :
  exec (run demo_early_ops) demo_start = Some demo_world_early.
Proof. vm_compute. reflexivity. Defined.


Lemma demo_contended_moves :
  moves [CaptureStarts; ReaderStarts; CaptureMoves] (initial demo_world)
  = Some demo_contended.
Proof. vm_compute. reflexivity. Defined.

Lemma demo_reading_moves :
  moves [ReaderStarts; ReaderMoves 0] (initial demo_world) = Some demo_reading.
Proof. vm_compute. reflexivity. Defined.

Lemma accessors_constant_witness :
  reachable demo_world
  ∧ cursor demo_world = Some (createCursor ArrowCursor, demo_world)
  ∧ window demo_world = Some (Some TheWindow, demo_world).
Proof.
  split; [exact demo_world_reachable|].
  exact (accessors_constant demo_world demo_world_reachable).
Defined.


Lemma capture_twice_witness :
  reachable demo_world
  ∧ ∃ w1 w2, exec updateFrameBuffer demo_world = Some w1
             ∧ exec updateFrameBuffer w1 = Some w2
             ∧ server w2 = server w1.
Proof.
  split; [exact demo_world_reachable|].
  destruct (capture_twice demo_world demo_world_reachable)
    as (w1 & w2 & H1 & H2 & Hs & _).
  exists w1, w2. split; [exact H1|]. split; [exact H2|exact Hs].
Defined.

Lemma threads_are_the_live_objects_witness :
  reachable demo_world
  ∧ (2%positive ∈ m_threads (server demo_world)
     ↔ is_Some (heap (qt demo_world) !! 2%positive)).
Proof.
  split; [exact demo_world_reachable|].
  exact (proj1 (threads_are_the_live_objects demo_world 2%positive
                  demo_world_reachable)).
Defined.

Lemma teardown_from_any_state_witness :
  reachable demo_world
  ∧ 2%positive ∈ m_threads (server demo_world)
  ∧ ∃ w', exec (run (finishing 2%positive)) demo_world = Some w'
          ∧ heap (qt w') !! 2%positive = None.
Proof.
  assert (2%positive ∈ m_threads (server demo_world)) as Hin.
  { vm_compute. right. left. }
  split; [exact demo_world_reachable|]. split; [exact Hin|].
  destruct (teardown_from_any_state demo_world 2%positive
              demo_world_reachable Hin)
    as (w' & Hexec & _ & _ & Hgone & _).
  exists w'. split; [exact Hexec|exact Hgone].
Defined.

Lemma removeClient_absent_witness :
  reachable demo_world
  ∧ (5%positive ∉ m_threads (server demo_world))
  ∧ ∃ w', exec (removeClient (Some (ObjThread 5%positive))) demo_world = Some w'
          ∧ server w' = server demo_world.
Proof.
  assert (5%positive ∉ m_threads (server demo_world)) as Hout.
  { apply (bool_decide_unpack _). vm_compute. exact I. }
  split; [exact demo_world_reachable|]. split; [exact Hout|].
  eexists. unfold exec.
  rewrite (removeClient_absent demo_world 5%positive demo_world_reachable Hout).
  split; reflexivity.
Defined.

Lemma attach_detach_round_trip_witness :
  reachable demo_world
  ∧ ∃ w1 w2,
      exec (addClient 9 (Some ObjTcpServer)) demo_world = Some w1
      ∧ exec (removeClient
                (Some (ObjThread (fresh (dom (heap (qt demo_world))))))) w1
        = Some w2
      ∧ server w2 = server demo_world.
Proof.
  split; [exact demo_world_reachable|].
  destruct (attach_detach_round_trip demo_world 9 (Some ObjTcpServer)
              demo_world_reachable)
    as (w1 & w2 & H1 & H2 & Hs & _).
  exists w1, w2. split; [exact H1|]. split; [exact H2|exact Hs].
Defined.


Lemma frameSwapped_captures_iff_viewers_witness :
  reachable demo_world
  ∧ emit_frameSwapped demo_world
    = (if bool_decide (m_threads (server demo_world) = [])
       then Some (tt, demo_world) else updateFrameBuffer demo_world).
Proof.
  split; [exact demo_world_reachable|].
  exact (frameSwapped_captures_iff_viewers demo_world demo_world_reachable).
Defined.

Lemma buffer_written_by_captures_only_witness :
  reachable demo_world
  ∧ forallb (λ op, negb (captures op)) demo_quiet_ops = true
  ∧ exec (run demo_quiet_ops) demo_world = Some demo_world_later
  ∧ ∃ w1 w1',
      frameBuffer demo_world = Some (m_frameBuffer (server demo_world), w1)
      ∧ frameBuffer demo_world_later
        = Some (m_frameBuffer (server demo_world), w1').
Proof.
  split; [exact demo_world_reachable|]. split; [reflexivity|].
  split; [exact demo_world_later_run|].
  exact (buffer_written_by_captures_only demo_quiet_ops demo_world
           demo_world_later demo_world_reachable eq_refl demo_world_later_run).
Defined.

Lemma no_capture_no_image_witness :
  construct 5999 (Some TheWindow) demo_window true = Some demo_start
  ∧ forallb (λ op, negb (captures op)) demo_early_ops = true
  ∧ exec (run demo_early_ops) demo_start = Some demo_world_early
  ∧ ∃ w', frameBuffer demo_world_early = Some (QImage_null, w').
Proof.
  split; [exact demo_start_constructed|]. split; [reflexivity|].
  split; [exact demo_world_early_run|].
  exact (no_capture_no_image 5999 (Some TheWindow) demo_window true demo_start
           demo_early_ops demo_world_early demo_start_constructed eq_refl
           demo_world_early_run).
Defined.


Lemma destructor_quits_every_thread_witness :
  reachable demo_world
  ∧ ∃ w' evs, exec VncServer_dtor demo_world = Some w'
              ∧ m_window (server w') = None
              ∧ trace w' = trace demo_world ++ evs
              ∧ waited evs = 40.
Proof.
  split; [exact demo_world_reachable|].
  destruct (destructor_quits_every_thread demo_world demo_world_reachable)
    as (w' & evs & Hexec & Hwin & _ & _ & _ & Htrace & _ & Hwait).
  exists w', evs. split; [exact Hexec|]. split; [exact Hwin|].
  split; [exact Htrace|].
  transitivity (20 * Z.of_nat (length (m_threads (server demo_world))));
    [exact Hwait|].
  vm_compute. reflexivity.
Defined.

Lemma destructor_ends_workers_witness :
  reachable demo_world
  ∧ 1%positive ∈ m_threads (server demo_world)
  ∧ ∃ w1 w2 t,
      exec VncServer_dtor demo_world = Some w1
      ∧ exec (run (replicate 5 (ThreadRuns 1%positive))) w1 = Some w2
      ∧ heap (qt w2) !! 1%positive = Some t
      ∧ pc t = Done.
Proof.
  assert (1%positive ∈ m_threads (server demo_world)) as Hin.
  { vm_compute. left. }
  split; [exact demo_world_reachable|]. split; [exact Hin|].
  destruct (destructor_ends_workers demo_world 1%positive
              demo_world_reachable Hin)
    as (w1 & w2 & t & Hd & Hrun & _ & _ & Ht & Hpc & _).
  exists w1, w2, t. split; [exact Hd|]. split; [exact Hrun|].
  split; [exact Ht|exact Hpc].
Defined.

Lemma frame_swapped_during_destruction_witness :
  reachable demo_world
  ∧ m_threads (server demo_world) ≠ []
  ∧ ∃ w1, exec VncServer_dtor demo_world = Some w1
          ∧ subscribed w1 = true
          ∧ emit_frameSwapped w1 = None.
Proof.
  assert (m_threads (server demo_world) ≠ []) as Hths.
  { vm_compute. discriminate. }
  split; [exact demo_world_reachable|]. split; [exact Hths|].
  destruct (frame_swapped_during_destruction demo_world demo_world_reachable
              Hths)
    as (w1 & w2 & Hd & Hsub & _ & _ & _ & Hfail).
  exists w1. split; [exact Hd|]. split; [exact Hsub|exact Hfail].
Defined.

Lemma run_returns_only_on_request_witness :
  past_loop (pc (thread_after 7 (demo_thread_ops ++ [TDisconnected; TRuns])))
  = true
  ∧ quit_requested (thread_after 7 (demo_thread_ops ++ [TDisconnected; TRuns]))
    = true.
Proof.
  split; [reflexivity|].
  exact (proj1 (run_returns_only_on_request 7
                  (demo_thread_ops ++ [TDisconnected; TRuns]) eq_refl)).
Defined.

Lemma quit_ends_run_witness :
  pc (thread_after 7 demo_thread_ops) ≠ NotStarted
  ∧ asks_to_stop TDisconnected = true
  ∧ is_Some (client (thread_after 7 demo_thread_ops))
  ∧ pc (foldl thread_step
          (thread_step (thread_after 7 demo_thread_ops) TDisconnected)
          [TRuns; TRuns; TRuns; TRuns; TRuns]) = Done.
Proof.
  assert (pc (thread_after 7 demo_thread_ops) ≠ NotStarted) as Hpc.
  { vm_compute. discriminate. }
  assert (is_Some (client (thread_after 7 demo_thread_ops))) as Hcl.
  { vm_compute. eexists. reflexivity. }
  split; [exact Hpc|]. split; [reflexivity|]. split; [exact Hcl|].
  exact (proj1 (quit_ends_run 7 demo_thread_ops TDisconnected Hpc eq_refl
                  (λ _, Hcl))).
Defined.

Lemma blocked_only_at_the_lock_witness :
  reachable demo_world
  ∧ moves [CaptureStarts; ReaderStarts; CaptureMoves] (initial demo_world)
    = Some demo_contended
  ∧ move (ReaderMoves 0) demo_contended = None
  ∧ capture_holds (capture demo_contended) = true
  ∧ is_Some (move CaptureMoves demo_contended).
Proof.
  assert (capture_holds (capture demo_contended) = true) as Hholds.
  { vm_compute. reflexivity. }
  split; [exact demo_world_reachable|]. split; [exact demo_contended_moves|].
  split; [vm_compute; reflexivity|]. split; [exact Hholds|].
  exact (proj1 (blocked_only_at_the_lock demo_world
                  [CaptureStarts; ReaderStarts; CaptureMoves] demo_contended
                  demo_world_reachable demo_contended_moves) Hholds).
Defined.

Lemma reader_copies_latest_release_witness :
  reachable demo_world
  ∧ moves [ReaderStarts; ReaderMoves 0] (initial demo_world) = Some demo_reading
  ∧ readers demo_reading !! 0%nat = Some R253
  ∧ ∃ fb c', move (ReaderMoves 0) demo_reading = Some c'
             ∧ readers c' !! 0%nat = Some (R255 fb)
             ∧ head (released c') = Some fb.
Proof.
  assert (readers demo_reading !! 0%nat = Some R253) as Hr.
  { vm_compute. reflexivity. }
  split; [exact demo_world_reachable|]. split; [exact demo_reading_moves|].
  split; [exact Hr|].
  destruct (reader_copies_latest_release demo_world
              [ReaderStarts; ReaderMoves 0] demo_reading 0%nat
              demo_world_reachable demo_reading_moves Hr)
    as (fb & c' & Hmove & Hcopy & Hhead & _).
  exists fb, c'. split; [exact Hmove|]. split; [exact Hcopy|exact Hhead].
Defined.
